(** * Judge0 execution service: submission, polling, decoding, classification

    A shallow embedding of [server/services/judge0Service.js] and the
    properties of its submission / poll / decode / classify / aggregate
    pipeline.

    Modelling conventions.
    - A JavaScript string is a [string]: a sequence of code units, of which
      the model carries those below 256.  On that range [toLowerCase] and
      [trim] are exactly the ECMAScript functions.
    - Values that arrive from the remote engine are dynamically typed and are
      carried as [JsVal]; test cases and interpretations are supplied by the
      application and carry the types of the data model.
    - [async] code is sequential here: every [await] is a step of the monad
      [M], which threads the [World] (wall clock and the log of network
      requests) and may throw an [Error].  The remote engine, the decoder of
      [Buffer] and the interpretation service are the fields of [Env].
    - Console logging has no effect on results and is left out, as are the
      request headers, which depend on process configuration only. *)

From Stdlib Require Import ZArith String Ascii List Lia Bool.
From stdpp Require Import gmap strings list.

(** ** JavaScript values *)

(** [JRef] stands for an object or a function that is only passed around
    (a built-in of [Object.prototype], for instance): it is truthy and it is
    not a string. *)
Inductive JsVal : Type :=
| JUndefined
| JNull
| JBool (b : bool)
| JNum (n : Z)
| JStr (s : string)
| JRef (name : string).

(** ToBoolean. *)
Definition truthy (v : JsVal) : bool :=
  match v with
  | JUndefined | JNull => false
  | JBool b => b
  | JNum n => negb (n =? 0)%Z
  | JStr s => negb (String.eqb s "")
  | JRef _ => true
  end.

(** [a || b]. *)
Definition js_or (a b : JsVal) : JsVal := if truthy a then a else b.

(** ** Strings *)

Definition code_unit (c : ascii) : N := N_of_ascii c.

(** Lower-casing of one code unit: A-Z, and the upper-case letters of the
    Latin-1 supplement (U+00C0 - U+00DE without the multiplication sign). *)
Definition lower_char (c : ascii) : ascii :=
  let n := code_unit c in
  if ((65 <=? n) && (n <=? 90) || (192 <=? n) && (n <=? 222) && negb (n =? 215))%N
  then ascii_of_N (n + 32) else c.

Fixpoint toLowerCase (s : string) : string :=
  match s with
  | EmptyString => EmptyString
  | String c r => String (lower_char c) (toLowerCase r)
  end.

(** WhiteSpace and LineTerminator code units: TAB, LF, VT, FF, CR, SP, NBSP. *)
Definition is_js_space (c : ascii) : bool :=
  let n := code_unit c in
  ((n =? 9) || (n =? 10) || (n =? 11) || (n =? 12) || (n =? 13) || (n =? 32) || (n =? 160))%N.

Fixpoint trimStart (s : string) : string :=
  match s with
  | EmptyString => EmptyString
  | String c r => if is_js_space c then trimStart r else s
  end.

(** Drops the trailing white space: a suffix is kept from the first
    character on that is followed by something other than white space. *)
Fixpoint trimEnd (s : string) : string :=
  match s with
  | EmptyString => EmptyString
  | String c r =>
      match trimEnd r with
      | EmptyString => if is_js_space c then EmptyString else String c EmptyString
      | r' => String c r'
      end
  end.

Definition trim (s : string) : string := trimEnd (trimStart s).

Definition CR : ascii := ascii_of_N 13.
Definition LF : ascii := ascii_of_N 10.

(** [s.replace(/\r\n/g, '\n')]: every carriage return that is directly
    followed by a line feed is dropped, scanning from the left. *)
Fixpoint replace_crlf (s : string) : string :=
  match s with
  | EmptyString => EmptyString
  | String c r =>
      match r with
      | String d _ =>
          if Ascii.eqb c CR && Ascii.eqb d LF then replace_crlf r
          else String c (replace_crlf r)
      | EmptyString => String c EmptyString
      end
  end.

(** ** The language table (constructor, lines 12-18) *)

Definition languageMap : gmap string Z :=
  <["c" := 50%Z]> (<["cpp" := 54%Z]> (<["java" := 62%Z]>
    (<["python" := 71%Z]> (<["javascript" := 63%Z]> ∅)))).

(** [languageMap] is an object literal, so its prototype is
    [Object.prototype]; these are the names that object defines. *)
Definition Object_prototype_keys : list string :=
  [ "constructor"; "__defineGetter__"; "__defineSetter__"; "hasOwnProperty";
    "__lookupGetter__"; "__lookupSetter__"; "isPrototypeOf";
    "propertyIsEnumerable"; "toString"; "valueOf"; "__proto__";
    "toLocaleString" ].

(** [this.languageMap[key]]: the own property, else the property inherited
    from [Object.prototype], else [undefined]. *)
Definition languageMap_get (key : string) : JsVal :=
  match languageMap !! key with
  | Some n => JNum n
  | None =>
      if bool_decide (key ∈ Object_prototype_keys)
      then JRef ("Object.prototype." +:+ key)
      else JUndefined
  end.

(** [getLanguageId] (lines 475-477). *)
Definition getLanguageId (language : string) : JsVal :=
  languageMap_get (toLowerCase language).

(** The entries of the object literal [languageMap], in the order in which
    they are written (constructor, lines 12-18). *)
Definition languageEntries : list (string * Z) :=
  [ ("c", 50%Z); ("cpp", 54%Z); ("java", 62%Z); ("python", 71%Z); ("javascript", 63%Z) ].

(** [getSupportedLanguages] (lines 468-470): [Object.keys] lists the own
    keys in the order of their insertion. *)
Definition getSupportedLanguages : list string := languageEntries.*1.

(** ** Data model *)

Record Error : Type := mkError {
  message : string;
  response_status : option Z   (* [error.response.status], on HTTP failures *)
}.

(** [new Error(msg)]. *)
Definition new_Error (msg : string) : Error :=
  {| message := msg; response_status := None |}.

Record Submission : Type := mkSubmission {
  source_code : string;
  language_id : JsVal;
  stdin : string;
  base64_encoded : bool
}.

Record Status : Type := mkStatus {
  status_id : Z;
  description : JsVal
}.

(** The record the engine answers a status request with.  [other] holds the
    fields the service does not look at (token, message, ...). *)
Record RawResult : Type := mkRawResult {
  status : option Status;
  stdout : JsVal;
  stderr : JsVal;
  compile_output : JsVal;
  time : JsVal;
  memory : JsVal;
  other : gmap string JsVal
}.

Record TestCase : Type := mkTestCase {
  tc_id : Z;
  input_data : string;
  expected_output : string;
  is_sample : bool
}.

Record Interpretation : Type := mkInterpretation {
  success : bool;
  formatted_input : option string
}.

Inductive Verdict : Type := PASSED | FAILED | TLE | CE | ERROR.

(** One entry of the sequence a batch call returns; [verdict] is its field
    [status] and [cr_memory] its field [memory].  The last two fields exist
    in the entries of [executeTestCasesWithLLM] only; there
    [llmInterpretation] is [Some None] when the interpretation list had no
    entry at the case's index. *)
Record CaseResult : Type := mkCaseResult {
  testCase : TestCase;
  verdict : Verdict;
  output : JsVal;
  expected : string;
  executionTime : JsVal;
  cr_memory : JsVal;
  error : JsVal;
  llmInterpretation : option (option Interpretation);
  usedInput : option string
}.

(** ** The world and the external collaborators *)

Inductive Event : Type :=
| EvPost (s : Submission)      (* POST /submissions *)
| EvGet (token : JsVal)        (* GET /submissions/<token> *)
| EvSleep (ms : Z).            (* setTimeout(resolve, ms) *)

Record World : Type := mkWorld {
  clock : Z;            (* Date.now(), in milliseconds *)
  posts : nat;          (* submissions sent so far *)
  gets : nat;           (* status requests sent so far *)
  trace : list Event    (* what happened, oldest first *)
}.

Record Reply (A : Type) : Type := mkReply {
  latency : N;               (* milliseconds until the promise settles *)
  outcome : Error + A
}.
Arguments mkReply {A} _ _.
Arguments latency {A} _.
Arguments outcome {A} _.

Record Env : Type := mkEnv {
  (* the n-th POST: [response.data.token], or the error of the request *)
  post_reply : nat -> Submission -> Reply JsVal;
  (* the n-th GET: [response.data], or the error of the request *)
  get_reply : nat -> JsVal -> Reply RawResult;
  (* [Buffer.from(s, 'base64').toString('utf-8')]: it does not throw on a
     string, what is not base64 in [s] is skipped *)
  base64_to_utf8 : string -> string;
  (* [llmService.interpretTestCases] *)
  interpretTestCases : list TestCase -> string -> string -> Error + list Interpretation
}.

(** ** The monad of asynchronous, throwing code *)

Definition M (A : Type) : Type := World -> (Error + A) * World.

Definition ret {A} (a : A) : M A := fun w => (inr a, w).

Definition throw {A} (e : Error) : M A := fun w => (inl e, w).

Definition bind {A B} (c : M A) (k : A -> M B) : M B :=
  fun w =>
    match c w with
    | (inr a, w') => k a w'
    | (inl e, w') => (inl e, w')
    end.

(** [try { c } catch (error) { handler error }] *)
Definition try_catch {A} (c : M A) (handler : Error -> M A) : M A :=
  fun w =>
    match c w with
    | (inr a, w') => (inr a, w')
    | (inl e, w') => handler e w'
    end.

Declare Scope js_scope.
Delimit Scope js_scope with js.
Notation "'await!' x ':=' c 'in' k" := (bind c (fun x => k))
  (at level 10, x name, c at level 100, k at level 200) : js_scope.
Open Scope js_scope.

Definition sleep (ms : Z) : M unit :=
  fun w => (inr tt, {| clock := clock w + ms; posts := posts w; gets := gets w;
                        trace := trace w ++ [EvSleep ms] |}).

Definition axios_post (env : Env) (submission : Submission) : M JsVal :=
  fun w =>
    let r := post_reply env (posts w) submission in
    (outcome r, {| clock := clock w + Z.of_N (latency r); posts := S (posts w);
                   gets := gets w; trace := trace w ++ [EvPost submission] |}).

Definition axios_get (env : Env) (token : JsVal) : M RawResult :=
  fun w =>
    let r := get_reply env (gets w) token in
    (outcome r, {| clock := clock w + Z.of_N (latency r); posts := posts w;
                   gets := S (gets w); trace := trace w ++ [EvGet token] |}).

(** ** submitCode (lines 24-67) *)

Definition submitCode (env : Env) (code language input : string) : M JsVal :=
  try_catch
    (let languageId := languageMap_get (toLowerCase language) in
     if negb (truthy languageId)
     then throw (new_Error ("Unsupported language: " +:+ language))
     else
       let submission :=
         {| source_code := code; language_id := languageId;
            stdin := input; base64_encoded := true |} in
       await! token := axios_post env submission in
       ret token)
    (fun error =>
       match response_status error with
       | Some 401%Z =>
           throw (new_Error "Judge0 API key is invalid or missing. Please check your JUDGE0_API_KEY environment variable.")
       | Some 429%Z =>
           throw (new_Error "Judge0 API rate limit exceeded. Please try again later.")
       | Some 500%Z =>
           throw (new_Error "Judge0 service is temporarily unavailable. Please try again later.")
       | _ => throw (new_Error ("Failed to submit code: " +:+ message error))
       end).

(** ** decodeBase64Response (lines 98-127) *)

(** One of the three guarded blocks: a non-empty string is replaced by its
    decoding; anything else stays.  The decoder does not throw, so that the
    [catch] block, which would keep the field, is never entered. *)
Definition decode_field (decode : string -> string) (v : JsVal) : JsVal :=
  match v with
  | JStr s => if truthy v then JStr (decode s) else v
  | _ => v
  end.

Definition decodeBase64Response (env : Env) (data : RawResult) : RawResult :=
  {| status := status data;
     stdout := decode_field (base64_to_utf8 env) (stdout data);
     stderr := decode_field (base64_to_utf8 env) (stderr data);
     compile_output := decode_field (base64_to_utf8 env) (compile_output data);
     time := time data;
     memory := memory data;
     other := other data |}.

(** ** getSubmissionResult (lines 72-93) *)

Definition getSubmissionResult (env : Env) (token : JsVal) : M RawResult :=
  try_catch
    (await! data := axios_get env token in
     ret (decodeBase64Response env data))
    (fun error =>
       throw (new_Error ("Failed to get submission result: " +:+ message error))).

(** ** waitForSubmission (lines 132-152) *)

(** [result.status && result.status.id > 2] *)
Definition is_completed (result : RawResult) : bool :=
  match status result with
  | Some st => (2 <? status_id st)%Z
  | None => false
  end.

(** The [while] loop.  [fuel] bounds the number of iterations and [None]
    means that it ran out; [poll_fuel] is always enough
    ([poll_loop_total]). *)
Fixpoint poll_loop (fuel : nat) (env : Env) (token : JsVal)
    (startTime maxWaitTime : Z) (w : World) : option ((Error + RawResult) * World) :=
  if (clock w - startTime <? maxWaitTime)%Z then
    match fuel with
    | O => None
    | S fuel' =>
        match try_catch (getSubmissionResult env token) (fun error => throw error) w with
        | (inl error, w1) => Some (inl error, w1)
        | (inr result, w1) =>
            if is_completed result then Some (inr result, w1)
            else poll_loop fuel' env token startTime maxWaitTime (snd (sleep 1000 w1))
        end
    end
  else Some (inl (new_Error "Submission timeout"), w).

Definition poll_fuel (maxWaitTime : Z) : nat := S (Z.to_nat (maxWaitTime / 1000)).

(** [startTime] is what [Date.now()] reads on entry.  The second branch of
    the [match] is never taken. *)
Definition waitForSubmission (env : Env) (token : JsVal) (maxWaitTime : Z) : M RawResult :=
  fun w =>
    match poll_loop (poll_fuel maxWaitTime) env token (clock w) maxWaitTime w with
    | Some r => r
    | None => (inl (new_Error "unreachable"), w)
    end.

(** ** executeCode (lines 157-203) *)

(** [result.status?.id] *)
Definition status_id_of (result : RawResult) : option Z :=
  match status result with
  | Some st => Some (status_id st)
  | None => None
  end.

Definition with_text (result : RawResult) (out err comp : JsVal) : RawResult :=
  {| status := status result; stdout := out; stderr := err; compile_output := comp;
     time := time result; memory := memory result; other := other result |}.

(** Lines 169-198: the four object literals [{...result, stdout, stderr,
    compile_output}]. *)
Definition shape_result (result : RawResult) : RawResult :=
  match status_id_of result with
  | Some 3%Z =>
      with_text result (js_or (stdout result) (JStr "No output"))
                       (js_or (stderr result) (JStr ""))
                       (js_or (compile_output result) (JStr ""))
  | Some 6%Z =>
      with_text result (JStr "") (JStr "")
                       (js_or (compile_output result) (JStr "Compilation Error"))
  | Some 5%Z =>
      with_text result (JStr "") (JStr "Time Limit Exceeded") (JStr "")
  | _ =>
      with_text result (js_or (stdout result) (JStr ""))
                       (js_or (stderr result) (JStr "Runtime Error"))
                       (js_or (compile_output result) (JStr ""))
  end.

Definition executeCode (env : Env) (code language input : string) : M RawResult :=
  try_catch
    (await! token := submitCode env code language input in
     await! result := waitForSubmission env token 15000 in
     ret (shape_result result))
    (fun error => throw error).

(** ** compareOutput (lines 455-463) *)

Definition TypeError (msg : string) : Error := new_Error msg.

Definition compareOutput (actual expected : JsVal) : Error + bool :=
  if negb (truthy actual) || negb (truthy expected) then inr false
  else
    match actual, expected with
    | JStr a, JStr e =>
        let cleanActual := replace_crlf (trim a) in
        let cleanExpected := replace_crlf (trim e) in
        inr (String.eqb cleanActual cleanExpected)
    | JStr _, _ => inl (TypeError "expected.trim is not a function")
    | _, _ => inl (TypeError "actual.trim is not a function")
    end.

(** ** executeTestCases (lines 208-313) *)

Definition lift {A} (r : Error + A) : M A := fun w => (r, w).

(** Lines 240-293, and 365-428 with the two additional fields: the entry
    pushed for a completed submission. *)
Definition classify (tc : TestCase) (result : RawResult)
    (llm : option (option Interpretation)) (used : option string) : Error + CaseResult :=
  match status_id_of result with
  | Some 3%Z =>
      match compareOutput (stdout result) (JStr (expected_output tc)) with
      | inl e => inl e
      | inr isCorrect =>
          inr {| testCase := tc; verdict := if isCorrect then PASSED else FAILED;
                 output := stdout result; expected := expected_output tc;
                 executionTime := time result; cr_memory := memory result;
                 error := JNull; llmInterpretation := llm; usedInput := used |}
      end
  | Some 4%Z =>
      inr {| testCase := tc; verdict := FAILED;
             output := stdout result; expected := expected_output tc;
             executionTime := time result; cr_memory := memory result;
             error := JNull; llmInterpretation := llm; usedInput := used |}
  | Some 5%Z =>
      inr {| testCase := tc; verdict := TLE;
             output := JNull; expected := expected_output tc;
             executionTime := JNull; cr_memory := JNull;
             error := JStr "Time Limit Exceeded";
             llmInterpretation := llm; usedInput := used |}
  | Some 6%Z =>
      inr {| testCase := tc; verdict := CE;
             output := JNull; expected := expected_output tc;
             executionTime := JNull; cr_memory := JNull;
             error := js_or (compile_output result) (JStr "Compilation Error");
             llmInterpretation := llm; usedInput := used |}
  | _ =>
      inr {| testCase := tc; verdict := ERROR;
             output := JNull; expected := expected_output tc;
             executionTime := JNull; cr_memory := JNull;
             error := js_or (match status result with
                             | Some st => description st
                             | None => JUndefined
                             end) (JStr "Unknown Error");
             llmInterpretation := llm; usedInput := used |}
  end.

(** The entry pushed by a [catch] block (lines 295-303 and 430-440). *)
Definition caught (tc : TestCase) (e : Error)
    (llm : option (option Interpretation)) (used : option string) : CaseResult :=
  {| testCase := tc; verdict := ERROR;
     output := JNull; expected := expected_output tc;
     executionTime := JNull; cr_memory := JNull;
     error := JStr (message e);
     llmInterpretation := llm; usedInput := used |}.

(** The body of the inner [try] (lines 220-293). *)
Definition case_pipeline (env : Env) (code language : string) (tc : TestCase) : M CaseResult :=
  await! token := submitCode env code language (input_data tc) in
  await! result := waitForSubmission env token 30000 in
  lift (classify tc result None None).

(** The [for ... of] loop; [results] is the array the entries are pushed to. *)
Fixpoint for_each_case (env : Env) (code language : string)
    (testCases : list TestCase) (results : list CaseResult) : M (list CaseResult) :=
  match testCases with
  | [] => ret results
  | tc :: rest =>
      await! entry := try_catch (case_pipeline env code language tc)
                                (fun error => ret (caught tc error None None)) in
      for_each_case env code language rest (results ++ [entry])
  end.

Definition executeTestCases (env : Env) (code language : string)
    (testCases : list TestCase) : M (list CaseResult) :=
  try_catch (for_each_case env code language testCases [])
            (fun error => throw error).

(** ** executeTestCasesWithLLM (lines 318-450) *)

(** [interpretation.success && interpretation.formatted_input
      ? interpretation.formatted_input : testCase.input_data] *)
Definition inputToUse (tc : TestCase) (interpretation : Interpretation) : string :=
  match formatted_input interpretation with
  | Some formatted =>
      if success interpretation && negb (String.eqb formatted "")
      then formatted else input_data tc
  | None => input_data tc
  end.

(** The body of the inner [try] (lines 338-428).  [interpretation] is
    [interpretedTestCases[i]], which is [undefined] past the end of that
    array; reading a property of it then throws. *)
Definition llm_case_pipeline (env : Env) (code language : string) (tc : TestCase)
    (interpretation : option Interpretation) : M CaseResult :=
  match interpretation with
  | None =>
      throw (TypeError "Cannot read properties of undefined (reading 'formatted_input')")
  | Some interp =>
      let input := inputToUse tc interp in
      await! token := submitCode env code language input in
      await! result := waitForSubmission env token 30000 in
      lift (classify tc result (Some interpretation) (Some input))
  end.

(** One iteration of the [for] loop (lines 334-441). *)
Definition llm_case (env : Env) (code language : string) (tc : TestCase)
    (interpretation : option Interpretation) : M CaseResult :=
  try_catch (llm_case_pipeline env code language tc interpretation)
            (fun error => ret (caught tc error (Some interpretation) (Some (input_data tc)))).

(** The loop from index [i] on; [rest] is what is left of [testCases]. *)
Fixpoint llm_loop (env : Env) (code language : string)
    (interpretedTestCases : list Interpretation) (i : nat)
    (rest : list TestCase) (results : list CaseResult) : M (list CaseResult) :=
  match rest with
  | [] => ret results
  | tc :: rest' =>
      await! entry := llm_case env code language tc (interpretedTestCases !! i) in
      llm_loop env code language interpretedTestCases (S i) rest' (results ++ [entry])
  end.

Definition executeTestCasesWithLLM (env : Env) (code language : string)
    (testCases : list TestCase) (problemContext : string) : M (list CaseResult) :=
  try_catch
    (await! interpretedTestCases :=
       lift (interpretTestCases env testCases language problemContext) in
     llm_loop env code language interpretedTestCases 0 testCases [])
    (fun error => throw error).

(** * Vocabulary of the statements *)

(** The world after a submission was sent. *)
Definition posted (env : Env) (submission : Submission) (w : World) : World :=
  snd (axios_post env submission w).

(** Descriptions of strings, for what [trim] and [replace] achieve. *)
Fixpoint all_space (s : string) : bool :=
  match s with
  | EmptyString => true
  | String c r => is_js_space c && all_space r
  end.

Definition starts_with_space (s : string) : bool :=
  match s with
  | EmptyString => false
  | String c _ => is_js_space c
  end.

Fixpoint ends_with_space (s : string) : bool :=
  match s with
  | EmptyString => false
  | String c EmptyString => is_js_space c
  | String _ r => ends_with_space r
  end.

Fixpoint has_crlf (s : string) : bool :=
  match s with
  | EmptyString => false
  | String c r =>
      match r with
      | String d _ => Ascii.eqb c CR && Ascii.eqb d LF || has_crlf r
      | EmptyString => false
      end
  end.

Definition CRLF (s : string) : string := String CR (String LF s).

(** The world after a status request was sent and answered. *)
Definition after_get (env : Env) (token : JsVal) (w : World) : World :=
  snd (axios_get env token w).

(** The world one non-final iteration later: the request, then the pause. *)
Definition poll_step (env : Env) (token : JsVal) (w : World) : World :=
  snd (sleep 1000 (after_get env token w)).

(** The world at the start of iteration [k], counted from 0. *)
Fixpoint poll_world (env : Env) (token : JsVal) (k : nat) (w : World) : World :=
  match k with
  | O => w
  | S k' => poll_world env token k' (poll_step env token w)
  end.

(** The log of [k] rounds of request and pause. *)
Fixpoint poll_events (token : JsVal) (k : nat) : list Event :=
  match k with
  | O => []
  | S k' => EvGet token :: EvSleep 1000 :: poll_events token k'
  end.

Definition timeout_error : Error := new_Error "Submission timeout".

(** A status source for the examples: the [n]-th request is answered after
    [lat] ms with the status id [ids n] and no output. *)
Definition scripted_env (lat : N) (ids : nat → Z) : Env :=
  {| post_reply := λ _ _, mkReply lat (inr (JStr "token-1"));
     get_reply := λ n _,
       mkReply lat (inr {| status := Some {| status_id := ids n; description := JNull |};
                           stdout := JNull; stderr := JNull; compile_output := JNull;
                           time := JNull; memory := JNull; other := ∅ |});
     base64_to_utf8 := λ s, s;
     interpretTestCases := λ _ _ _, inr [] |}.

Definition initial_world : World := {| clock := 0; posts := 0; gets := 0; trace := [] |}.

(** How a batch unfolds from world [w]: the cases are processed one after
    the other, each from the world its predecessor left; a case whose
    pipeline returns contributes that entry, a case whose pipeline throws
    contributes the ERROR entry with the message of what was thrown. *)
Inductive batch_run (env : Env) (code language : string) :
    list TestCase → World → list CaseResult → World → Prop :=
| batch_done w :
    batch_run env code language [] w [] w
| batch_computed tc rest w entry w1 entries w2 :
    case_pipeline env code language tc w = (inr entry, w1) →
    batch_run env code language rest w1 entries w2 →
    batch_run env code language (tc :: rest) w (entry :: entries) w2
| batch_caught tc rest w e w1 entries w2 :
    case_pipeline env code language tc w = (inl e, w1) →
    batch_run env code language rest w1 entries w2 →
    batch_run env code language (tc :: rest) w (caught tc e None None :: entries) w2.

(** What was logged between two worlds, the second being a later state of
    the first. *)
Definition new_events (w w' : World) : list Event :=
  drop (length (trace w)) (trace w').

(** How the interpreted batch unfolds from world [w] and index [i]; the
    entry of each case is what [llm_case] yields on the interpretation at
    the case's index, from the world its predecessor left. *)
Inductive llm_run (env : Env) (code language : string) (interpreted : list Interpretation) :
    nat → list TestCase → World → list (World * CaseResult * World) → World → Prop :=
| llm_done i w :
    llm_run env code language interpreted i [] w [] w
| llm_next i tc rest w entry w1 steps w2 :
    llm_case env code language tc (interpreted !! i) w = (inr entry, w1) →
    llm_run env code language interpreted (S i) rest w1 steps w2 →
    llm_run env code language interpreted i (tc :: rest) w ((w, entry, w1) :: steps) w2.

(** A step of [llm_run]: the world before, the entry, the world after. *)
Definition step_entry (step : World * CaseResult * World) : CaseResult := snd (fst step).

Definition text_fields (r : RawResult) : JsVal * JsVal * JsVal :=
  (stdout r, stderr r, compile_output r).

(** How many of the three text fields hold something. *)
Definition populated_count (r : RawResult) : nat :=
  (if truthy (stdout r) then 1 else 0) + (if truthy (stderr r) then 1 else 0) +
  (if truthy (compile_output r) then 1 else 0).

(** An engine that answers every status request with [result], and a
    decoder that leaves text as it is. *)
Definition constant_env (result : RawResult) : Env :=
  {| post_reply := λ _ _, mkReply 5 (inr (JStr "token"));
     get_reply := λ _ _, mkReply 10 (inr result);
     base64_to_utf8 := λ s, s;
     interpretTestCases := λ _ _ _, inr [] |}.

(** An answer of the engine with the given status and text fields. *)
Definition engine_result (id : Z) (desc : string) (out err comp : JsVal) : RawResult :=
  {| status := Some {| status_id := id; description := JStr desc |};
     stdout := out; stderr := err; compile_output := comp;
     time := JStr "0.004"; memory := JNum 1024; other := ∅ |}.

(** The table of section 4.4 of the specification, read for the
    single-execution path: per status, the standard output, the error text
    and the compile diagnostic of the result.  "As received" is the field of
    the fetched result and "cleared" is the empty text. *)
Definition table_4_4_single (result : RawResult) : JsVal * JsVal * JsVal :=
  match status_id_of result with
  | Some 3%Z =>      (* Accepted *)
      (js_or (stdout result) (JStr "No output"), stderr result, compile_output result)
  | Some 4%Z =>      (* Wrong Answer *)
      (stdout result, stderr result, compile_output result)
  | Some 5%Z =>      (* Time Limit Exceeded *)
      (JStr "", JStr "Time Limit Exceeded", JStr "")
  | Some 6%Z =>      (* Compilation Error *)
      (JStr "", JStr "", js_or (compile_output result) (JStr "Compilation Error"))
  | _ =>             (* any other terminal code *)
      (JStr "",
       js_or (match status result with Some st => description st | None => JUndefined end)
             (JStr "Runtime Error"),
       compile_output result)
  end.

(** What the batch path enters for test case [tc] and a completed
    [result]. *)
Definition batch_row (tc : TestCase) (result : RawResult) (entry : CaseResult) : Prop :=
  let id := status_id_of result in
  testCase entry = tc ∧ expected entry = expected_output tc ∧
  (id = Some 3%Z →
     ∃ isCorrect, compareOutput (stdout result) (JStr (expected_output tc)) = inr isCorrect ∧
                  verdict entry = (if isCorrect then PASSED else FAILED) ∧
                  output entry = stdout result ∧ error entry = JNull ∧
                  executionTime entry = time result ∧ cr_memory entry = memory result) ∧
  (id = Some 4%Z →
     verdict entry = FAILED ∧ output entry = stdout result ∧ error entry = JNull ∧
     executionTime entry = time result ∧ cr_memory entry = memory result) ∧
  (id = Some 5%Z →
     verdict entry = TLE ∧ output entry = JNull ∧ error entry = JStr "Time Limit Exceeded" ∧
     executionTime entry = JNull ∧ cr_memory entry = JNull) ∧
  (id = Some 6%Z →
     verdict entry = CE ∧ output entry = JNull ∧
     error entry = js_or (compile_output result) (JStr "Compilation Error") ∧
     executionTime entry = JNull ∧ cr_memory entry = JNull) ∧
  (id ≠ Some 3%Z → id ≠ Some 4%Z → id ≠ Some 5%Z → id ≠ Some 6%Z →
     verdict entry = ERROR ∧ output entry = JNull ∧
     (∃ st, status result = Some st ∧
            error entry = js_or (description st) (JStr "Unknown Error")) ∧
     executionTime entry = JNull ∧ cr_memory entry = JNull).

(** What the single-execution path returns for a completed [result]. *)
Definition single_row (result r : RawResult) : Prop :=
  let id := status_id_of result in
  (id = Some 3%Z →
     text_fields r = (js_or (stdout result) (JStr "No output"),
                      js_or (stderr result) (JStr ""),
                      js_or (compile_output result) (JStr ""))) ∧
  (id = Some 5%Z →
     text_fields r = (JStr "", JStr "Time Limit Exceeded", JStr "")) ∧
  (id = Some 6%Z →
     text_fields r = (JStr "", JStr "",
                      js_or (compile_output result) (JStr "Compilation Error"))) ∧
  (id ≠ Some 3%Z → id ≠ Some 5%Z → id ≠ Some 6%Z →
     text_fields r = (js_or (stdout result) (JStr ""),
                      js_or (stderr result) (JStr "Runtime Error"),
                      js_or (compile_output result) (JStr ""))) ∧
  status r = status result ∧ time r = time result ∧ memory r = memory result ∧
  other r = other result.

(** An entry with verdict PASSED is backed by the comparison: its output is
    a non-empty text that equals the non-empty expected output after
    [trim] and after replacing CR LF by LF. *)
Definition passed_is_backed (entry : CaseResult) : Prop :=
  ∃ out, output entry = JStr out ∧ out ≠ "" ∧
         expected entry = expected_output (testCase entry) ∧ expected entry ≠ "" ∧
         replace_crlf (trim out) = replace_crlf (trim (expected entry)) ∧
         error entry = JNull.

(** [typeof v === 'string'] *)
Definition is_text (v : JsVal) : bool :=
  match v with JStr _ => true | _ => false end.

(** The text with Windows line endings: every LF becomes CR LF. *)
Fixpoint to_crlf (s : string) : string :=
  match s with
  | EmptyString => EmptyString
  | String c r =>
      if Ascii.eqb c LF then String CR (String LF (to_crlf r))
      else String c (to_crlf r)
  end.

(** The inputs of the submissions in a log, in the order in which they
    were sent. *)
Definition submitted_inputs (events : list Event) : list string :=
  omap (λ ev, match ev with EvPost s => Some (stdin s) | _ => None end) events.

(** What a step of [llm_run] added to the log. *)
Definition step_events (step : World * CaseResult * World) : list Event :=
  new_events (fst (fst step)) (snd step).

(** The inputs the interpreted batch has to submit, case by case from index
    [i] on: [inputToUse] for a case that has an interpretation at its
    index, nothing for a case that has none. *)
Fixpoint planned_inputs (interpreted : list Interpretation) (i : nat)
    (testCases : list TestCase) : list string :=
  match testCases with
  | [] => []
  | tc :: rest =>
      match interpreted !! i with
      | Some interp => [inputToUse tc interp]
      | None => []
      end ++ planned_inputs interpreted (S i) rest
  end.

(** * Properties *)

(** Case analysis on the status code of [result] when the goal compares it
    with the literals 3, 4, 5 and 6. *)
Ltac status_cases result :=
  destruct (status_id_of result) as [[|?p|?p]|]; try done;
  repeat match goal with
         | p : positive |- _ => destruct p as [p|p|]; try done
         end.

(** ** Strings *)

Lemma lower_char_idem c : lower_char (lower_char c) = lower_char c.
Proof. destruct c as [[] [] [] [] [] [] [] []]; reflexivity. Qed.

Lemma toLowerCase_idem s : toLowerCase (toLowerCase s) = toLowerCase s.
Proof. induction s as [|c s IH]; simpl; [reflexivity|]. by rewrite lower_char_idem, IH. Qed.

Lemma truthy_JStr s : truthy (JStr s) = true ↔ s ≠ "".
Proof.
  simpl. destruct (String.eqb_spec s ""); simpl; split; intros; congruence.
Qed.

Lemma js_or_truthy a b : truthy b = true → truthy (js_or a b) = true.
Proof. unfold js_or. destruct (truthy a) eqn:E; auto. Qed.

(** ** The language table *)

Lemma languageMap_lookup key n :
  languageMap !! key = Some n ↔
  (key = "c" ∧ n = 50%Z) ∨ (key = "cpp" ∧ n = 54%Z) ∨ (key = "java" ∧ n = 62%Z) ∨
  (key = "python" ∧ n = 71%Z) ∨ (key = "javascript" ∧ n = 63%Z).
Proof.
  unfold languageMap. rewrite !lookup_insert_Some, lookup_empty.
  split; intros H; intuition (subst; try congruence; auto 10).
Qed.

Lemma languageMap_get_own key n :
  languageMap !! key = Some n → languageMap_get key = JNum n ∧ truthy (JNum n) = true.
Proof.
  intros H. unfold languageMap_get. rewrite H. split; [reflexivity|].
  apply languageMap_lookup in H. by destruct H as [[_ ->]|[[_ ->]|[[_ ->]|[[_ ->]|[_ ->]]]]].
Qed.

Lemma languageMap_get_truthy key :
  truthy (languageMap_get key) = true ↔
  is_Some (languageMap !! key) ∨ key ∈ Object_prototype_keys.
Proof.
  unfold languageMap_get. destruct (languageMap !! key) as [n|] eqn:E.
  - destruct (languageMap_get_own key n E) as [_ ->]. split; eauto.
  - case_bool_decide; simpl; split; intros Hx; auto; try discriminate.
    destruct Hx as [[? ?]|?]; [discriminate|contradiction].
Qed.

(** ** submitCode *)

Lemma submitCode_unresolved env code language input w :
  truthy (getLanguageId language) = false →
  submitCode env code language input w =
    (inl (new_Error ("Failed to submit code: Unsupported language: " +:+ language)), w).
Proof.
  unfold getLanguageId. intros H. unfold submitCode, try_catch. rewrite H. reflexivity.
Qed.

Lemma submitCode_resolved env code language input w :
  truthy (getLanguageId language) = true →
  let submission := {| source_code := code; language_id := getLanguageId language;
                       stdin := input; base64_encoded := true |} in
  snd (submitCode env code language input w) = posted env submission w ∧
  ∀ token, outcome (post_reply env (posts w) submission) = inr token →
           fst (submitCode env code language input w) = inr token.
Proof.
  unfold getLanguageId. intros H. unfold submitCode, try_catch, bind, axios_post, posted.
  rewrite H. simpl.
  destruct (outcome (post_reply env (posts w) _)) as [e|token] eqn:E; simpl.
  - split; [|intros ? ?; discriminate].
    destruct (response_status e) as [[|p|p]|]; try reflexivity.
    repeat (destruct p as [p|p|]; try reflexivity).
  - split; [reflexivity|]. intros ? [= <-]. reflexivity.
Qed.

(** C10.  Language lookup is case-insensitive: [getLanguageId] gives the same
    answer for a language name and for its lower-case form, "Python" resolves
    to the engine id of "python", and the submission [submitCode] sends
    carries the id found under the lower-case name. *)
Theorem language_lookup_case_insensitive :
  (∀ l, getLanguageId l = getLanguageId (toLowerCase l)) ∧
  getLanguageId "Python" = getLanguageId "python" ∧
  getLanguageId "Python" = JNum 71 ∧
  (∀ env code l input w,
     trace (snd (submitCode env code l input w)) =
     trace w ++
       (if truthy (languageMap_get (toLowerCase l))
        then [EvPost {| source_code := code;
                        language_id := languageMap_get (toLowerCase l);
                        stdin := input; base64_encoded := true |}]
        else [])) ∧
  (∀ env code l input w,
     snd (submitCode env code l input w) =
     snd (submitCode env code (toLowerCase l) input w)).
Proof.
  assert (Hidem : ∀ l, getLanguageId l = getLanguageId (toLowerCase l)).
  { intros l. unfold getLanguageId. by rewrite toLowerCase_idem. }
  split; [exact Hidem|]. split; [by vm_compute|]. split; [by vm_compute|].
  assert (Hw : ∀ env code l input w,
     snd (submitCode env code l input w) =
       if truthy (getLanguageId l)
       then posted env {| source_code := code; language_id := getLanguageId l;
                          stdin := input; base64_encoded := true |} w
       else w).
  { intros env code l input w. destruct (truthy (getLanguageId l)) eqn:E.
    - by destruct (submitCode_resolved env code l input w E) as [-> _].
    - by rewrite submitCode_unresolved. }
  split.
  - intros env code l input w. rewrite Hw. unfold getLanguageId.
    destruct (truthy _); simpl; [reflexivity|]. by rewrite app_nil_r.
  - intros env code l input w. rewrite !Hw, <- Hidem. reflexivity.
Qed.

(** The language guard where it works.  A language whose lower-case name is
    an entry of the table is submitted with the table's numeric id; a
    language whose
    lower-case name is neither an entry nor a name defined by
    [Object.prototype] is rejected, with the world untouched: no request was
    sent. *)
Lemma submitCode_language_guard env code language input w :
  (∀ n, languageMap !! toLowerCase language = Some n →
        trace (snd (submitCode env code language input w)) =
        trace w ++ [EvPost {| source_code := code; language_id := JNum n;
                              stdin := input; base64_encoded := true |}]) ∧
  (languageMap !! toLowerCase language = None →
   toLowerCase language ∉ Object_prototype_keys →
   submitCode env code language input w =
     (inl (new_Error ("Failed to submit code: Unsupported language: " +:+ language)), w)).
Proof.
  split.
  - intros n Hn. destruct (languageMap_get_own _ _ Hn) as [Hg Ht].
    assert (Hl : getLanguageId language = JNum n) by exact Hg.
    assert (Hr : truthy (getLanguageId language) = true) by (by rewrite Hl).
    destruct (submitCode_resolved env code language input w Hr) as [-> _].
    by rewrite Hl.
  - intros Hnone Hproto. apply submitCode_unresolved.
    destruct (truthy (getLanguageId language)) eqn:E; [|reflexivity].
    apply languageMap_get_truthy in E. destruct E as [[? E]|E]; [congruence|contradiction].
Qed.

(** C5, where it fails.  "constructor" has no entry in the language table,
    yet [languageMap["constructor"]] is the inherited [Object] function, which
    is truthy: the guard lets it through and the submission is sent. *)
Theorem submitCode_prototype_key_is_submitted env code input w :
  languageMap !! toLowerCase "constructor" = None ∧
  trace (snd (submitCode env code "constructor" input w)) =
    trace w ++ [EvPost {| source_code := code;
                          language_id := JRef "Object.prototype.constructor";
                          stdin := input; base64_encoded := true |}] ∧
  posts (snd (submitCode env code "constructor" input w)) = S (posts w).
Proof.
  split; [by vm_compute|].
  assert (Hr : truthy (getLanguageId "constructor") = true) by (by vm_compute).
  destruct (submitCode_resolved env code "constructor" input w Hr) as [-> _].
  split; reflexivity.
Qed.

(** ** compareOutput *)

Lemma append_String c l x : String c l +:+ x = String c (l +:+ x).
Proof. reflexivity. Qed.

Lemma append_empty x : "" +:+ x = x.
Proof. reflexivity. Qed.

(** [trimStart] removes a prefix of white space, and all of it. *)
Lemma trimStart_spec s :
  ∃ l, s = l +:+ trimStart s ∧ all_space l = true ∧ starts_with_space (trimStart s) = false.
Proof.
  induction s as [|c s (l & Hs & Hl & Hr)]; simpl.
  - by exists "".
  - destruct (is_js_space c) eqn:E.
    + exists (String c l). simpl. rewrite E, Hl, append_String. by rewrite <- Hs.
    + exists "". simpl. by rewrite E.
Qed.

Lemma trimEnd_empty s : trimEnd s = "" → all_space s = true.
Proof.
  induction s as [|c s IH]; simpl; [done|].
  destruct (trimEnd s) eqn:E; [|discriminate].
  destruct (is_js_space c); [|discriminate]. intros _. by rewrite IH.
Qed.

(** [trimEnd] removes a suffix of white space, and all of it. *)
Lemma trimEnd_spec s :
  ∃ r, s = trimEnd s +:+ r ∧ all_space r = true ∧ ends_with_space (trimEnd s) = false.
Proof.
  induction s as [|c s (r & Hs & Hr & He)]; simpl.
  - by exists "".
  - destruct (trimEnd s) as [|d t] eqn:E.
    + rewrite append_empty in Hs. subst r.
      destruct (is_js_space c) eqn:Ec.
      * exists (String c s). rewrite append_empty. simpl. by rewrite Ec, Hr.
      * exists s. rewrite append_String, append_empty. simpl. by rewrite Ec.
    + exists r. rewrite append_String, <- Hs. auto.
Qed.

Lemma trimEnd_keeps_start s :
  starts_with_space s = false → starts_with_space (trimEnd s) = false.
Proof.
  destruct s as [|c s]; simpl; [done|]. intros E.
  destruct (trimEnd s); simpl; [by rewrite E|done].
Qed.

(** [trim] cuts the white space off both ends and nothing else. *)
Lemma trim_spec s :
  ∃ l r, s = l +:+ trim s +:+ r ∧ all_space l = true ∧ all_space r = true ∧
         starts_with_space (trim s) = false ∧ ends_with_space (trim s) = false.
Proof.
  unfold trim. destruct (trimStart_spec s) as (l & Hs & Hl & Hst).
  destruct (trimEnd_spec (trimStart s)) as (r & Ht & Hr & He).
  exists l, r. split; [by rewrite <- Ht|]. auto using trimEnd_keeps_start.
Qed.

(** Without a CR LF pair there is nothing to replace. *)
Lemma replace_crlf_id s : has_crlf s = false → replace_crlf s = s.
Proof.
  induction s as [|c s IH]; simpl; [done|].
  destruct s as [|d t]; [done|].
  intros [H1 H2]%orb_false_iff. rewrite H1. by rewrite IH.
Qed.

(** A CR LF pair becomes LF, whatever follows. *)
Lemma replace_crlf_pair s : replace_crlf (CRLF s) = String LF (replace_crlf s).
Proof. unfold CRLF. simpl. destruct s; reflexivity. Qed.

(** C6.  [compareOutput] is false as soon as one side is absent or empty.
    For two non-empty strings it does not throw and is true exactly when the
    two are equal after [trim] and after replacing CR LF by LF on both
    sides; the three examples of the specification come out as stated. *)
Theorem compareOutput_spec :
  (∀ v, compareOutput JUndefined v = inr false ∧ compareOutput JNull v = inr false ∧
        compareOutput (JStr "") v = inr false) ∧
  (∀ v, compareOutput v JUndefined = inr false ∧ compareOutput v JNull = inr false ∧
        compareOutput v (JStr "") = inr false) ∧
  (∀ actual expected, actual ≠ "" → expected ≠ "" →
     ∃ b, compareOutput (JStr actual) (JStr expected) = inr b ∧
          (b = true ↔ replace_crlf (trim actual) = replace_crlf (trim expected))) ∧
  compareOutput (JStr ("Hello" +:+ CRLF "World")) (JStr ("Hello" +:+ String LF "World")) = inr true ∧
  compareOutput (JStr "") (JStr "anything") = inr false ∧
  compareOutput (JStr (" x " +:+ String LF "")) (JStr "x") = inr true.
Proof.
  split; [by intros v|]. split.
  { intros v. unfold compareOutput. simpl. rewrite !orb_true_r. done. }
  split; [|by vm_compute].
  intros a e Ha He. exists (String.eqb (replace_crlf (trim a)) (replace_crlf (trim e))).
  split.
  - unfold compareOutput.
    apply truthy_JStr in Ha, He. rewrite Ha, He. reflexivity.
  - apply String.eqb_eq.
Qed.

(** The witness of [compareOutput_spec] at a pair that differs by line
    endings and surrounding blanks. *)
Lemma compareOutput_spec_witness :
  "1 2" +:+ CRLF "3 " ≠ "" ∧ " 1 2" +:+ String LF "3" ≠ "" ∧
  ∃ b, compareOutput (JStr ("1 2" +:+ CRLF "3 ")) (JStr (" 1 2" +:+ String LF "3")) = inr b ∧
       (b = true ↔ replace_crlf (trim ("1 2" +:+ CRLF "3 ")) =
                   replace_crlf (trim (" 1 2" +:+ String LF "3"))).
Proof.
  split; [discriminate|]. split; [discriminate|].
  apply (proj1 (proj2 (proj2 compareOutput_spec))); discriminate.
Defined.

(** ** decodeBase64Response *)

Lemma decode_field_text decode s :
  s ≠ "" → decode_field decode (JStr s) = JStr (decode s).
Proof. intros Hs%truthy_JStr. unfold decode_field. by rewrite Hs. Qed.

Lemma decode_field_other decode v :
  (∀ s, v = JStr s → s = "") → decode_field decode v = v.
Proof.
  intros Hv. destruct v as [| |b|n|s|name]; try done.
  by rewrite (Hv s eq_refl).
Qed.

(** What holds of the decoding: each of the three fields of the decoded
    record is computed from the same field of the input alone, and the rest
    of the record is that of the input. *)
Lemma decodeBase64Response_frame env data :
  let decoded := decodeBase64Response env data in
  let decode := base64_to_utf8 env in
  (stdout decoded = decode_field decode (stdout data) ∧
   stderr decoded = decode_field decode (stderr data) ∧
   compile_output decoded = decode_field decode (compile_output data)) ∧
  (status decoded = status data ∧ time decoded = time data ∧
   memory decoded = memory data ∧ other decoded = other data).
Proof. done. Qed.

(** C8, where it fails.  A field that holds a non-empty string is always
    overwritten with what the decoder makes of it, never left as received:
    [Buffer] does not throw on text that is not base64, it skips what it
    cannot read.  Of "%%%", in which nothing is base64, the empty text is
    left, and that is what the decoded record holds in place of the field
    as received.  The other two fields are decoded as they would be
    without it, and the rest of the record is unchanged. *)
Theorem decodeBase64Response_overwrites_malformed env data :
  base64_to_utf8 env "%%%" = "" →
  stderr data = JStr "%%%" →
  let decoded := decodeBase64Response env data in
  stderr decoded = JStr "" ∧
  stderr decoded ≠ stderr data ∧
  stdout decoded = decode_field (base64_to_utf8 env) (stdout data) ∧
  compile_output decoded = decode_field (base64_to_utf8 env) (compile_output data) ∧
  status decoded = status data ∧ time decoded = time data ∧
  memory decoded = memory data ∧ other decoded = other data.
Proof.
  intros Hskip Hfield. cbv zeta.
  assert (stderr (decodeBase64Response env data) = JStr "") as Hdecoded.
  { simpl. rewrite Hfield, decode_field_text by done. by rewrite Hskip. }
  split; [done|]. split; [by rewrite Hdecoded, Hfield|]. done.
Qed.

(** The witness of [decodeBase64Response_overwrites_malformed]: of the
    texts below the decoder reads "aGk=" only. *)
Lemma decodeBase64Response_overwrites_malformed_witness :
  let env := {| post_reply := λ _ _, mkReply 0 (inr JUndefined);
                get_reply := λ _ _, mkReply 0 (inl (new_Error "unused"));
                base64_to_utf8 := λ s, if String.eqb s "aGk=" then "hi" else "";
                interpretTestCases := λ _ _ _, inr [] |} in
  let data := {| status := Some {| status_id := 3; description := JStr "Accepted" |};
                 stdout := JStr "aGk="; stderr := JStr "%%%"; compile_output := JNull;
                 time := JStr "0.002"; memory := JNum 3120;
                 other := {["token" := JStr "t-1"]} |} in
  (base64_to_utf8 env "%%%" = "" ∧ stderr data = JStr "%%%") ∧
  stderr (decodeBase64Response env data) = JStr "" ∧
  stderr (decodeBase64Response env data) ≠ stderr data.
Proof.
  intros env data. split; [by split|].
  destruct (decodeBase64Response_overwrites_malformed env data eq_refl eq_refl)
    as (Hdecoded & Hchanged & _).
  split; [exact Hdecoded|exact Hchanged].
Defined.

(** A well-formed [stdout] is decoded beside a [stderr] that is not base64,
    of which nothing is left. *)
Example decode_beside_malformed_stderr :
  let env := {| post_reply := λ _ _, mkReply 0%N (inr JUndefined);
                get_reply := λ _ _, mkReply 0%N (inl (new_Error "unused"));
                base64_to_utf8 := λ s, if String.eqb s "aGk=" then "hi" else "";
                interpretTestCases := λ _ _ _, inr [] |} in
  let data := {| status := Some {| status_id := 3; description := JStr "Accepted" |};
                 stdout := JStr "aGk="; stderr := JStr "%%%"; compile_output := JNull;
                 time := JStr "0.002"; memory := JNum 3120;
                 other := {["token" := JStr "t-1"]} |} in
  decodeBase64Response env data =
    {| status := Some {| status_id := 3; description := JStr "Accepted" |};
       stdout := JStr "hi"; stderr := JStr ""; compile_output := JNull;
       time := JStr "0.002"; memory := JNum 3120;
       other := {["token" := JStr "t-1"]} |}.
Proof. reflexivity. Qed.

(** ** The monad *)

Lemma try_catch_rethrow {A} (c : M A) w : try_catch c (λ error, throw error) w = c w.
Proof. unfold try_catch, throw. by destruct (c w) as [[e|a] w']. Qed.

(** ** executeTestCasesWithLLM: the interpretation phase *)

(** C9.  When [llmService.interpretTestCases] throws, the error leaves
    [executeTestCasesWithLLM] as it is: no result sequence is returned, and
    the world is as before the call, so that no test case was processed. *)
Theorem executeTestCasesWithLLM_interpretation_failure
    env code language testCases problemContext w e :
  interpretTestCases env testCases language problemContext = inl e →
  executeTestCasesWithLLM env code language testCases problemContext w = (inl e, w).
Proof.
  intros H. unfold executeTestCasesWithLLM. rewrite try_catch_rethrow.
  unfold bind, lift. by rewrite H.
Qed.

(** The witness of [executeTestCasesWithLLM_interpretation_failure]: an
    interpretation service that is down. *)
Lemma executeTestCasesWithLLM_interpretation_failure_witness :
  let env := {| post_reply := λ _ _, mkReply 0%N (inr (JStr "t"));
                get_reply := λ _ _, mkReply 0%N (inl (new_Error "unused"));
                base64_to_utf8 := λ s, s;
                interpretTestCases := λ _ _ _, inl (new_Error "LLM unavailable") |} in
  let w := {| clock := 0; posts := 0; gets := 0; trace := [] |} in
  let testCases := [ {| tc_id := 1; input_data := "1 2"; expected_output := "3";
                        is_sample := true |} ] in
  interpretTestCases env testCases "python" "" = inl (new_Error "LLM unavailable") ∧
  executeTestCasesWithLLM env "print(1)" "python" testCases "" w =
    (inl (new_Error "LLM unavailable"), w).
Proof.
  split; [reflexivity|].
  apply executeTestCasesWithLLM_interpretation_failure. reflexivity.
Defined.

(** ** waitForSubmission *)

Section Polling.

Context (env : Env) (token : JsVal).

Lemma getSubmissionResult_run w :
  getSubmissionResult env token w =
    (match outcome (get_reply env (gets w) token) with
     | inr data => inr (decodeBase64Response env data)
     | inl e => inl (new_Error ("Failed to get submission result: " +:+ message e))
     end, after_get env token w).
Proof.
  unfold getSubmissionResult, try_catch, bind, axios_get, after_get. simpl.
  by destruct (outcome (get_reply env (gets w) token)).
Qed.

Lemma poll_step_clock w :
  (clock w + 1000 ≤ clock (poll_step env token w))%Z.
Proof. unfold poll_step, after_get. simpl. lia. Qed.

Lemma poll_world_S k w :
  poll_world env token (S k) w = poll_step env token (poll_world env token k w).
Proof. revert w. induction k as [|k IH]; intros w; [done|]. simpl in *. by rewrite IH. Qed.

Lemma poll_world_clock k w :
  (clock w + 1000 * Z.of_nat k ≤ clock (poll_world env token k w))%Z.
Proof.
  revert w. induction k as [|k IH]; intros w; simpl poll_world; [lia|].
  specialize (IH (poll_step env token w)). pose proof (poll_step_clock w). lia.
Qed.

Lemma poll_world_clock_mono j k w :
  j ≤ k → (clock (poll_world env token j w) ≤ clock (poll_world env token k w))%Z.
Proof.
  induction 1 as [|k _ IH]; [lia|]. rewrite poll_world_S.
  pose proof (poll_step_clock (poll_world env token k w)). lia.
Qed.

Lemma poll_world_trace k w :
  trace (poll_world env token k w) = trace w ++ poll_events token k.
Proof.
  revert w. induction k as [|k IH]; intros w; simpl.
  - by rewrite app_nil_r.
  - rewrite IH. unfold poll_step, after_get. simpl. by rewrite <- !app_assoc.
Qed.

Lemma poll_world_gets k w :
  gets (poll_world env token k w) = gets w + k.
Proof.
  revert w. induction k as [|k IH]; intros w; simpl; [lia|].
  rewrite IH. unfold poll_step, after_get. simpl. lia.
Qed.

Lemma poll_world_posts k w :
  posts (poll_world env token k w) = posts w.
Proof. revert w. induction k as [|k IH]; intros w; simpl; [done|]. by rewrite IH. Qed.

(** What the loop does, whatever the engine answers: it stops at the first
    iteration [k] that fetches a completed result, fails to fetch, or starts
    past the budget. *)
Lemma poll_loop_run fuel startTime maxWaitTime w :
  (maxWaitTime - (clock w - startTime) ≤ 1000 * Z.of_nat fuel)%Z →
  let polled k := poll_world env token k w in
  let fetched k := fst (getSubmissionResult env token (polled k)) in
  let in_budget k := (clock (polled k) - startTime < maxWaitTime)%Z in
  let run := poll_loop fuel env token startTime maxWaitTime w in
  ∃ k,
    (∀ j, j < k → in_budget j ∧ ∃ r, fetched j = inr r ∧ is_completed r = false) ∧
    ((in_budget k ∧ ∃ r, fetched k = inr r ∧ is_completed r = true ∧
                         run = Some (inr r, after_get env token (polled k))) ∨
     (in_budget k ∧ ∃ e, fetched k = inl e ∧
                         run = Some (inl e, after_get env token (polled k))) ∨
     (¬ in_budget k ∧ run = Some (inl timeout_error, polled k))).
Proof.
  revert w. induction fuel as [|fuel IH]; intros w Hfuel; simpl.
  - exists 0. split; [lia|]. right; right. simpl.
    destruct (Z.ltb_spec (clock w - startTime) maxWaitTime); [lia|]. split; [lia|done].
  - destruct (Z.ltb_spec (clock w - startTime) maxWaitTime) as [Hin|Hout].
    2:{ exists 0. split; [lia|]. right; right. split; [simpl; lia|done]. }
    rewrite try_catch_rethrow.
    destruct (getSubmissionResult env token w) as [[e|r] w1] eqn:Hget.
    { exists 0. split; [lia|]. right; left. simpl. rewrite Hget. simpl.
      split; [done|]. exists e. split; [done|].
      rewrite getSubmissionResult_run in Hget. by injection Hget as _ <-. }
    assert (w1 = after_get env token w) as ->.
    { rewrite getSubmissionResult_run in Hget. by injection Hget as _ <-. }
    destruct (is_completed r) eqn:Hdone.
    { exists 0. split; [lia|]. left. simpl. rewrite Hget. simpl. eauto. }
    fold (poll_step env token w).
    destruct (IH (poll_step env token w)) as (k & Hbefore & Hat).
    { pose proof (poll_step_clock w). lia. }
    exists (S k). split.
    + intros [|j] Hj; simpl.
      * rewrite Hget. simpl. eauto.
      * apply Hbefore. lia.
    + exact Hat.
Qed.

Lemma poll_fuel_enough maxWaitTime : (maxWaitTime ≤ 1000 * Z.of_nat (poll_fuel maxWaitTime))%Z.
Proof.
  unfold poll_fuel. destruct (Z.le_gt_cases maxWaitTime 0) as [H|H]; [lia|].
  rewrite Nat2Z.inj_succ, Z2Nat.id by (apply Z.div_pos; lia).
  pose proof (Z.mod_pos_bound maxWaitTime 1000 ltac:(lia)).
  pose proof (Z.div_mod maxWaitTime 1000 ltac:(lia)). lia.
Qed.

(** The loop never runs out of fuel. *)
Lemma poll_loop_total maxWaitTime w :
  ∃ r, poll_loop (poll_fuel maxWaitTime) env token (clock w) maxWaitTime w = Some r.
Proof.
  destruct (poll_loop_run (poll_fuel maxWaitTime) (clock w) maxWaitTime w)
    as (k & _ & [(_ & r & _ & _ & ->)|[(_ & e & _ & ->)|(_ & ->)]]); eauto.
  pose proof (poll_fuel_enough maxWaitTime). lia.
Qed.

Lemma waitForSubmission_run maxWaitTime w :
  let polled k := poll_world env token k w in
  let fetched k := fst (getSubmissionResult env token (polled k)) in
  let in_budget k := (clock (polled k) - clock w < maxWaitTime)%Z in
  let run := waitForSubmission env token maxWaitTime w in
  ∃ k,
    (∀ j, j < k → in_budget j ∧ ∃ r, fetched j = inr r ∧ is_completed r = false) ∧
    ((in_budget k ∧ ∃ r, fetched k = inr r ∧ is_completed r = true ∧
                         run = (inr r, after_get env token (polled k))) ∨
     (in_budget k ∧ ∃ e, fetched k = inl e ∧
                         run = (inl e, after_get env token (polled k))) ∨
     (¬ in_budget k ∧ run = (inl timeout_error, polled k))).
Proof.
  simpl. unfold waitForSubmission.
  destruct (poll_loop_run (poll_fuel maxWaitTime) (clock w) maxWaitTime w)
    as (k & Hbefore & Hat).
  { pose proof (poll_fuel_enough maxWaitTime). lia. }
  exists k. split; [exact Hbefore|].
  destruct Hat as [(Hb & r & Hf & Hc & ->)|[(Hb & e & Hf & ->)|(Hb & ->)]]; eauto 10.
Qed.

(** Whatever [waitForSubmission] returns is a completed result. *)
Lemma waitForSubmission_completed maxWaitTime w r w' :
  waitForSubmission env token maxWaitTime w = (inr r, w') → is_completed r = true.
Proof.
  intros H. destruct (waitForSubmission_run maxWaitTime w)
    as (k & _ & [(_ & r0 & _ & Hc & E)|[(_ & e & _ & E)|(_ & E)]]);
    rewrite E in H; congruence.
Qed.

(** What [waitForSubmission] adds to the log: status requests and pauses
    of one second, in turn. *)
Lemma waitForSubmission_trace maxWaitTime w :
  ∃ k, trace (snd (waitForSubmission env token maxWaitTime w)) =
         trace w ++ poll_events token k ∨
       trace (snd (waitForSubmission env token maxWaitTime w)) =
         trace w ++ poll_events token k ++ [EvGet token].
Proof.
  destruct (waitForSubmission_run maxWaitTime w)
    as (k & _ & [(_ & r0 & _ & Hc & E)|[(_ & e & _ & E)|(_ & E)]]);
    exists k; rewrite E; simpl.
  - right. unfold after_get. simpl. by rewrite poll_world_trace, app_assoc.
  - right. unfold after_get. simpl. by rewrite poll_world_trace, app_assoc.
  - left. apply poll_world_trace.
Qed.

Lemma fetched_answer w data :
  outcome (get_reply env (gets w) token) = inr data →
  fst (getSubmissionResult env token w) = inr (decodeBase64Response env data).
Proof. intros H. rewrite getSubmissionResult_run. simpl. by rewrite H. Qed.


(** A status request that fails ends the call with the error of the
    request, not with the timeout error. *)
Lemma waitForSubmission_fetch_failure maxWaitTime w e :
  (0 < maxWaitTime)%Z →
  outcome (get_reply env (gets w) token) = inl e →
  waitForSubmission env token maxWaitTime w =
    (inl (new_Error ("Failed to get submission result: " +:+ message e)),
     after_get env token w).
Proof.
  intros Hpos Hfail.
  assert (Hfetch : fst (getSubmissionResult env token w) =
                   inl (new_Error ("Failed to get submission result: " +:+ message e))).
  { rewrite getSubmissionResult_run. simpl. by rewrite Hfail. }
  destruct (waitForSubmission_run maxWaitTime w) as (k & Hbefore & Hat).
  cbv zeta in Hbefore, Hat. destruct k as [|k].
  - simpl in Hat. destruct Hat as [(_ & r & Hf & _)|[(_ & e' & Hf & ->)|(Hb & _)]].
    + congruence.
    + congruence.
    + lia.
  - destruct (Hbefore 0 ltac:(lia)) as (_ & r & Hf & _). simpl in Hf. congruence.
Qed.

End Polling.


(** Queued, running, accepted: the third answer is returned, 2060 ms after
    the start, after two pauses. *)
Example poll_until_accepted :
  let run := waitForSubmission (scripted_env 20 (λ n, Z.of_nat (S n)))
                               (JStr "token-1") 30000 initial_world in
  (status_id <$> (match fst run with inr r => status r | inl _ => None end)) = Some 3%Z ∧
  clock (snd run) = 2060%Z ∧
  trace (snd run) = [EvGet (JStr "token-1"); EvSleep 1000; EvGet (JStr "token-1");
                     EvSleep 1000; EvGet (JStr "token-1")].
Proof. by vm_compute. Qed.

(** A source that never gets past "running": with a budget of 2500 ms the
    status is requested three times, at 0, 1020 and 2040 ms, and the call
    fails with the timeout error. *)
Example poll_never_completes :
  let run := waitForSubmission (scripted_env 20 (λ _, 2%Z))
                               (JStr "token-1") 2500 initial_world in
  fst run = inl (new_Error "Submission timeout") ∧
  gets (snd run) = 3 ∧ clock (snd run) = 3060%Z.
Proof. by vm_compute. Qed.

(** ** executeTestCases *)

Lemma classify_inr tc result llm used entry :
  classify tc result llm used = inr entry →
  testCase entry = tc ∧ llmInterpretation entry = llm ∧ usedInput entry = used.
Proof.
  unfold classify. intros H.
  destruct (status_id_of result) as [[|p|p]|];
    repeat (try (injection H as <-; done);
            match type of H with
            | context [match ?p with xI _ => _ | xO _ => _ | xH => _ end] => destruct p
            | context [match ?c with inl _ => _ | inr _ => _ end] => destruct c; try discriminate
            end).
Qed.

Lemma caught_fields tc e llm used :
  testCase (caught tc e llm used) = tc ∧ verdict (caught tc e llm used) = ERROR ∧
  error (caught tc e llm used) = JStr (message e) ∧
  llmInterpretation (caught tc e llm used) = llm ∧ usedInput (caught tc e llm used) = used.
Proof. done. Qed.

Lemma case_pipeline_testCase env code language tc w entry w' :
  case_pipeline env code language tc w = (inr entry, w') → testCase entry = tc.
Proof.
  unfold case_pipeline, bind, lift. intros H.
  destruct (submitCode env code language (input_data tc) w) as [[e|token] w1]; [done|].
  destruct (waitForSubmission env token 30000 w1) as [[e|result] w2]; [done|].
  destruct (classify tc result None None) as [e|entry'] eqn:E; [done|].
  injection H as <- _. by apply classify_inr in E as [? _].
Qed.

Lemma for_each_case_run env code language testCases results w :
  ∃ entries w',
    for_each_case env code language testCases results w = (inr (results ++ entries), w') ∧
    batch_run env code language testCases w entries w'.
Proof.
  revert results w. induction testCases as [|tc rest IH]; intros results w; simpl.
  - exists [], w. rewrite app_nil_r. split; [done|constructor].
  - unfold bind, try_catch.
    destruct (case_pipeline env code language tc w) as [[e|entry] w1] eqn:E; simpl.
    + destruct (IH (results ++ [caught tc e None None]) w1) as (entries & w' & -> & Hrun).
      exists (caught tc e None None :: entries), w'. rewrite <- app_assoc.
      split; [done|]. by eapply batch_caught.
    + destruct (IH (results ++ [entry]) w1) as (entries & w' & -> & Hrun).
      exists (entry :: entries), w'. rewrite <- app_assoc.
      split; [done|]. by eapply batch_computed.
Qed.

Lemma batch_run_shape env code language testCases w entries w' :
  batch_run env code language testCases w entries w' →
  length entries = length testCases ∧ map testCase entries = testCases.
Proof.
  induction 1 as [|tc rest w entry w1 entries w2 Hcase _ [IHl IHm]
                  |tc rest w e w1 entries w2 Hcase _ [IHl IHm]]; simpl.
  - done.
  - apply case_pipeline_testCase in Hcase. by rewrite IHl, IHm, Hcase.
  - by rewrite IHl, IHm.
Qed.

(** C1.  [executeTestCases] always returns, never throws: the result
    sequence has one entry per test case, in the order of the test cases,
    and it is the sequence of [batch_run], in which a case whose processing
    throws is entered as ERROR with the message of the exception while every
    other case is entered with what its own pipeline computed. *)
Theorem executeTestCases_isolates_failures env code language testCases w :
  ∃ results w',
    executeTestCases env code language testCases w = (inr results, w') ∧
    length results = length testCases ∧
    map testCase results = testCases ∧
    batch_run env code language testCases w results w' ∧
    (∀ tc e, verdict (caught tc e None None) = ERROR ∧
             error (caught tc e None None) = JStr (message e)).
Proof.
  destruct (for_each_case_run env code language testCases [] w) as (entries & w' & Hloop & Hrun).
  exists entries, w'. unfold executeTestCases. rewrite try_catch_rethrow, Hloop.
  destruct (batch_run_shape _ _ _ _ _ _ _ Hrun) as [Hlen Hmap].
  repeat split; done.
Qed.

(** Five test cases of which the third cannot be submitted (the engine
    answers 429): five entries come back, the third is ERROR with the
    message of the failure, the others have their own verdicts. *)
Example third_of_five_throws :
  let env :=
    {| post_reply := λ n _,
         if Nat.eqb n 2 then mkReply 5 (inl {| message := "Request failed with status code 429";
                                                response_status := Some 429%Z |})
         else mkReply 5 (inr (JStr "token"));
       get_reply := λ n _,
         mkReply 10 (inr {| status := Some {| status_id := if Nat.even n then 1 else 3;
                                              description := JStr "Accepted" |};
                            stdout := JStr "NA=="; stderr := JNull; compile_output := JNull;
                            time := JStr "0.01"; memory := JNum 3000; other := ∅ |});
       base64_to_utf8 := λ s, if String.eqb s "NA==" then "4" else "";
       interpretTestCases := λ _ _ _, inr [] |} in
  let testCases := map (λ i, {| tc_id := i; input_data := "2 2";
                                expected_output := if (i =? 4)%Z then "5" else "4";
                                is_sample := false |}) [1; 2; 3; 4; 5]%Z in
  let run := executeTestCases env "print(sum(map(int, input().split())))" "Python"
                              testCases initial_world in
  match fst run with
  | inr results =>
      map verdict results = [PASSED; PASSED; ERROR; FAILED; PASSED] ∧
      error <$> results !! 2 =
        Some (JStr "Judge0 API rate limit exceeded. Please try again later.")
  | inl _ => False
  end.
Proof. by vm_compute. Qed.

(** ** executeTestCasesWithLLM *)

Lemma new_events_app w w' evs : trace w' = trace w ++ evs → new_events w w' = evs.
Proof. unfold new_events. intros ->. by rewrite drop_app_length. Qed.

Lemma submitCode_trace env code language input w :
  trace (snd (submitCode env code language input w)) =
  trace w ++ (if truthy (getLanguageId language)
              then [EvPost {| source_code := code; language_id := getLanguageId language;
                              stdin := input; base64_encoded := true |}]
              else []).
Proof.
  destruct (truthy (getLanguageId language)) eqn:E.
  - by destruct (submitCode_resolved env code language input w E) as [-> _].
  - rewrite submitCode_unresolved by done. simpl. by rewrite app_nil_r.
Qed.

Lemma poll_events_no_post token k s : EvPost s ∉ poll_events token k.
Proof.
  induction k as [|k IH]; simpl; [apply not_elem_of_nil|].
  rewrite !not_elem_of_cons. done.
Qed.

Lemma waitForSubmission_no_post env token maxWaitTime w :
  ∃ evs, trace (snd (waitForSubmission env token maxWaitTime w)) = trace w ++ evs ∧
         ∀ s, EvPost s ∉ evs.
Proof.
  destruct (waitForSubmission_trace env token maxWaitTime w) as [k [H|H]];
    eexists; (split; [exact H|]); intros s.
  - apply poll_events_no_post.
  - rewrite elem_of_app, list_elem_of_singleton.
    intros [Hin|?]; [by eapply poll_events_no_post|done].
Qed.

(** Every submission one iteration of the interpreted loop sends carries
    [inputToUse] as its stdin. *)
Lemma llm_case_submits env code language tc interp w :
  ∃ evs, trace (snd (llm_case env code language tc (Some interp) w)) = trace w ++ evs ∧
         ∀ s, EvPost s ∈ evs → stdin s = inputToUse tc interp.
Proof.
  unfold llm_case, try_catch, llm_case_pipeline, bind, lift.
  pose proof (submitCode_trace env code language (inputToUse tc interp) w) as Hs.
  destruct (submitCode env code language (inputToUse tc interp) w) as [[e|token] w1];
    simpl in Hs |- *.
  - eexists. split; [exact Hs|]. intros s.
    destruct (truthy (getLanguageId language)).
    + rewrite list_elem_of_singleton. by intros [= ->].
    + by intros ?%not_elem_of_nil.
  - destruct (waitForSubmission_no_post env token 30000 w1) as (evs & Hw & Hnp).
    destruct (waitForSubmission env token 30000 w1) as [[e|result] w2]; simpl in Hw |- *.
    + eexists. split; [by rewrite Hw, Hs, <- app_assoc|]. intros s.
      rewrite elem_of_app. intros [Hin|Hin]; [|by destruct (Hnp s)].
      destruct (truthy (getLanguageId language)).
      * apply list_elem_of_singleton in Hin. by injection Hin as ->.
      * by apply not_elem_of_nil in Hin.
    + assert (∃ evs', trace w2 = trace w ++ evs' ∧
                      ∀ s, EvPost s ∈ evs' → stdin s = inputToUse tc interp) as Hgoal.
      { eexists. split; [by rewrite Hw, Hs, <- app_assoc|]. intros s.
        rewrite elem_of_app. intros [Hin|Hin]; [|by destruct (Hnp s)].
        destruct (truthy (getLanguageId language)).
        * apply list_elem_of_singleton in Hin. by injection Hin as ->.
        * by apply not_elem_of_nil in Hin. }
      by destruct (classify tc result (Some (Some interp)) (Some (inputToUse tc interp))).
Qed.

(** One iteration of the interpreted loop always yields an entry: that of
    the pipeline, or the ERROR entry of the [catch] block. *)
Lemma llm_case_run env code language tc interpretation w :
  llm_case env code language tc interpretation w =
    match llm_case_pipeline env code language tc interpretation w with
    | (inr entry, w') => (inr entry, w')
    | (inl e, w') => (inr (caught tc e (Some interpretation) (Some (input_data tc))), w')
    end.
Proof. reflexivity. Qed.

Lemma llm_case_pipeline_usedInput env code language tc interp w entry w' :
  llm_case_pipeline env code language tc (Some interp) w = (inr entry, w') →
  usedInput entry = Some (inputToUse tc interp) ∧
  llmInterpretation entry = Some (Some interp).
Proof.
  unfold llm_case_pipeline, bind, lift. intros H.
  destruct (submitCode env code language (inputToUse tc interp) w) as [[e|token] w1]; [done|].
  destruct (waitForSubmission env token 30000 w1) as [[e|result] w2]; [done|].
  destruct (classify tc result _ _) as [e|entry'] eqn:E; [done|].
  injection H as <- _. apply classify_inr in E as (_ & ? & ?). done.
Qed.

(** [inputToUse] falls back to the original input. *)
Lemma inputToUse_fallback tc interp :
  success interp = false ∨ formatted_input interp = None →
  inputToUse tc interp = input_data tc.
Proof.
  unfold inputToUse. intros [H|H]; rewrite H; [|done].
  by destruct (formatted_input interp).
Qed.

Lemma llm_loop_run env code language interpreted i rest results w :
  ∃ steps w',
    llm_loop env code language interpreted i rest results w =
      (inr (results ++ map step_entry steps), w') ∧
    llm_run env code language interpreted i rest w steps w'.
Proof.
  revert i results w. induction rest as [|tc rest IH]; intros i results w; simpl.
  - exists [], w. simpl. rewrite app_nil_r. split; [done|constructor].
  - unfold bind. rewrite llm_case_run.
    destruct (llm_case_pipeline env code language tc (interpreted !! i) w)
      as [[e|entry] w1] eqn:E.
    + destruct (IH (S i) (results ++ [caught tc e (Some (interpreted !! i))
                                              (Some (input_data tc))]) w1)
        as (steps & w' & -> & Hrun).
      eexists ((w, _, w1) :: steps), w'. simpl. rewrite <- app_assoc.
      split; [done|]. econstructor; [|done]. by rewrite llm_case_run, E.
    + destruct (IH (S i) (results ++ [entry]) w1) as (steps & w' & -> & Hrun).
      eexists ((w, _, w1) :: steps), w'. simpl. rewrite <- app_assoc.
      split; [done|]. econstructor; [|done]. by rewrite llm_case_run, E.
Qed.

Lemma llm_run_lookup env code language interpreted i0 testCases w steps w' :
  llm_run env code language interpreted i0 testCases w steps w' →
  length steps = length testCases ∧
  ∀ i tc, testCases !! i = Some tc →
    ∃ wi entry wi', steps !! i = Some (wi, entry, wi') ∧
      llm_case env code language tc (interpreted !! (i0 + i)) wi = (inr entry, wi').
Proof.
  induction 1 as [j w|j tc0 rest w entry w1 steps w2 Hcase _ [IHl IH]]; simpl.
  - split; [done|]. intros i tc Hi. by rewrite lookup_nil in Hi.
  - split; [by rewrite IHl|]. intros [|i] tc Hi; simpl in Hi.
    + injection Hi as <-. exists w, entry, w1. by rewrite Nat.add_0_r.
    + destruct (IH i tc Hi) as (wi & e & wi' & ? & ?).
      exists wi, e, wi'. by rewrite Nat.add_succ_r.
Qed.

(** A failed interpretation whose rewrite is unusable: the original input
    is what gets submitted and what the entry records. *)
Example failed_interpretation_uses_original_input :
  let env := {| post_reply := λ _ _, mkReply 5 (inr (JStr "token"));
                get_reply := λ _ _,
                  mkReply 10 (inr {| status := Some {| status_id := 3; description := JStr "Accepted" |};
                                     stdout := JStr "Mw=="; stderr := JNull; compile_output := JNull;
                                     time := JStr "0.01"; memory := JNum 3000; other := ∅ |});
                base64_to_utf8 := λ s, if String.eqb s "Mw==" then "3" else "";
                interpretTestCases := λ tcs _ _,
                  inr (map (λ _, {| success := false; formatted_input := Some "???" |}) tcs) |} in
  let testCases := [ {| tc_id := 1; input_data := "1 2"; expected_output := "3";
                        is_sample := true |} ] in
  let run := executeTestCasesWithLLM env "print(3)" "python" testCases "" initial_world in
  match fst run with
  | inr results => map usedInput results = [Some "1 2"] ∧ map verdict results = [PASSED]
  | inl _ => False
  end ∧
  trace (snd run) =
    [ EvPost {| source_code := "print(3)"; language_id := JNum 71; stdin := "1 2";
                base64_encoded := true |};
      EvGet (JStr "token") ].
Proof. by vm_compute. Qed.

(** ** executeCode *)

Lemma executeCode_inr env code language input w r w' :
  executeCode env code language input w = (inr r, w') →
  ∃ token w1 result,
    submitCode env code language input w = (inr token, w1) ∧
    waitForSubmission env token 15000 w1 = (inr result, w') ∧
    is_completed result = true ∧
    r = shape_result result.
Proof.
  unfold executeCode. rewrite try_catch_rethrow. unfold bind, ret. intros H.
  destruct (submitCode env code language input w) as [[e|token] w1]; [done|].
  destruct (waitForSubmission env token 15000 w1) as [[e|result] w2] eqn:Hwait; [done|].
  injection H as <- <-. exists token, w1, result. repeat split; try done.
  by eapply waitForSubmission_completed.
Qed.

Lemma case_pipeline_inr env code language tc w entry w' :
  case_pipeline env code language tc w = (inr entry, w') →
  ∃ token w1 result,
    submitCode env code language (input_data tc) w = (inr token, w1) ∧
    waitForSubmission env token 30000 w1 = (inr result, w') ∧
    is_completed result = true ∧
    classify tc result None None = inr entry.
Proof.
  unfold case_pipeline, bind, lift. intros H.
  destruct (submitCode env code language (input_data tc) w) as [[e|token] w1]; [done|].
  destruct (waitForSubmission env token 30000 w1) as [[e|result] w2] eqn:Hwait; [done|].
  destruct (classify tc result None None) as [e|entry'] eqn:E; [done|].
  injection H as <- <-. exists token, w1, result. repeat split; try done.
  by eapply waitForSubmission_completed.
Qed.

Lemma shape_result_status result : status (shape_result result) = status result.
Proof.
  unfold shape_result. by status_cases result.
Qed.

Lemma shape_result_3 result :
  status_id_of result = Some 3%Z →
  shape_result result =
    with_text result (js_or (stdout result) (JStr "No output"))
                     (js_or (stderr result) (JStr ""))
                     (js_or (compile_output result) (JStr "")).
Proof. unfold shape_result. by intros ->. Qed.

Lemma shape_result_5 result :
  status_id_of result = Some 5%Z →
  shape_result result = with_text result (JStr "") (JStr "Time Limit Exceeded") (JStr "").
Proof. unfold shape_result. by intros ->. Qed.

Lemma shape_result_6 result :
  status_id_of result = Some 6%Z →
  shape_result result =
    with_text result (JStr "") (JStr "")
                     (js_or (compile_output result) (JStr "Compilation Error")).
Proof. unfold shape_result. by intros ->. Qed.

Lemma shape_result_other result :
  status_id_of result ≠ Some 3%Z → status_id_of result ≠ Some 5%Z →
  status_id_of result ≠ Some 6%Z →
  shape_result result =
    with_text result (js_or (stdout result) (JStr ""))
                     (js_or (stderr result) (JStr "Runtime Error"))
                     (js_or (compile_output result) (JStr "")).
Proof.
  unfold shape_result. intros H3 H5 H6. by status_cases result.
Qed.

(** C7 as the specification states it fails: a C program that was compiled
    with a warning and wrote to both streams is accepted, and all three
    text fields of what [executeCode] returns are populated, so that it is
    not the case that exactly one is. *)
Lemma executeCode_all_three_populated :
  let result := engine_result 3 "Accepted" (JStr "42") (JStr "debug: done")
                              (JStr "warning: unused variable") in
  ∃ r w',
    executeCode (constant_env result) "int main(){}" "c" "" initial_world = (inr r, w') ∧
    text_fields r = (JStr "42", JStr "debug: done", JStr "warning: unused variable") ∧
    populated_count r = 3 ∧
    ¬ (∀ env code language input w r w',
         executeCode env code language input w = (inr r, w') → populated_count r = 1).
Proof.
  intros result. eexists _, _. split; [reflexivity|]. split; [reflexivity|].
  split; [reflexivity|]. intros H.
  by specialize (H (constant_env result) "int main(){}" "c" "" initial_world _ _ eq_refl).
Qed.

Lemma truthy_js_or_empty v : truthy (js_or v (JStr "")) = truthy v.
Proof. unfold js_or. by destruct (truthy v) eqn:E. Qed.

(** C7, amended.  A result [r] returned by [executeCode] is shaped from the
    result that [waitForSubmission] fetched for the submission, and of its
    three text fields at least one is populated.  Exactly one is for a time
    limit (the error text) and for a compilation error (the compile
    diagnostic).  For an accepted run the output is populated, for every
    other status the error text is; each of the other two fields is then
    the field the engine returned when that is populated, and the empty
    text otherwise, so that two or all three can be populated. *)
Theorem executeCode_populated_fields env code language input w r w' :
  executeCode env code language input w = (inr r, w') →
  ∃ token w1 result,
    submitCode env code language input w = (inr token, w1) ∧
    waitForSubmission env token 15000 w1 = (inr result, w') ∧
    status r = status result ∧
    1 ≤ populated_count r ∧
    (status_id_of result = Some 5%Z →
       text_fields r = (JStr "", JStr "Time Limit Exceeded", JStr "") ∧
       populated_count r = 1) ∧
    (status_id_of result = Some 6%Z →
       stdout r = JStr "" ∧ stderr r = JStr "" ∧
       compile_output r = js_or (compile_output result) (JStr "Compilation Error") ∧
       truthy (compile_output r) = true ∧ populated_count r = 1) ∧
    (status_id_of result = Some 3%Z →
       stdout r = js_or (stdout result) (JStr "No output") ∧ truthy (stdout r) = true ∧
       stderr r = js_or (stderr result) (JStr "") ∧
       compile_output r = js_or (compile_output result) (JStr "") ∧
       populated_count r = 1 + (if truthy (stderr result) then 1 else 0)
                             + (if truthy (compile_output result) then 1 else 0)) ∧
    (status_id_of result ≠ Some 3%Z → status_id_of result ≠ Some 5%Z →
     status_id_of result ≠ Some 6%Z →
       stderr r = js_or (stderr result) (JStr "Runtime Error") ∧ truthy (stderr r) = true ∧
       stdout r = js_or (stdout result) (JStr "") ∧
       compile_output r = js_or (compile_output result) (JStr "") ∧
       populated_count r = (if truthy (stdout result) then 1 else 0) + 1
                           + (if truthy (compile_output result) then 1 else 0)).
Proof.
  intros H. apply executeCode_inr in H as (token & w1 & result & Hsub & Hwait & _ & ->).
  exists token, w1, result. split; [done|]. split; [done|].
  split; [apply shape_result_status|].
  assert (H5 : status_id_of result = Some 5%Z →
     text_fields (shape_result result) = (JStr "", JStr "Time Limit Exceeded", JStr "") ∧
     populated_count (shape_result result) = 1).
  { intros E. by rewrite (shape_result_5 _ E). }
  assert (H6 : status_id_of result = Some 6%Z →
     stdout (shape_result result) = JStr "" ∧ stderr (shape_result result) = JStr "" ∧
     compile_output (shape_result result) =
       js_or (compile_output result) (JStr "Compilation Error") ∧
     truthy (compile_output (shape_result result)) = true ∧
     populated_count (shape_result result) = 1).
  { intros E. rewrite (shape_result_6 _ E). unfold populated_count. simpl.
    by rewrite js_or_truthy. }
  assert (H3 : status_id_of result = Some 3%Z →
     stdout (shape_result result) = js_or (stdout result) (JStr "No output") ∧
     truthy (stdout (shape_result result)) = true ∧
     stderr (shape_result result) = js_or (stderr result) (JStr "") ∧
     compile_output (shape_result result) = js_or (compile_output result) (JStr "") ∧
     populated_count (shape_result result) =
       1 + (if truthy (stderr result) then 1 else 0)
         + (if truthy (compile_output result) then 1 else 0)).
  { intros E. rewrite (shape_result_3 _ E). unfold populated_count. simpl.
    by rewrite !truthy_js_or_empty, js_or_truthy. }
  assert (Hother : status_id_of result ≠ Some 3%Z → status_id_of result ≠ Some 5%Z →
     status_id_of result ≠ Some 6%Z →
     stderr (shape_result result) = js_or (stderr result) (JStr "Runtime Error") ∧
     truthy (stderr (shape_result result)) = true ∧
     stdout (shape_result result) = js_or (stdout result) (JStr "") ∧
     compile_output (shape_result result) = js_or (compile_output result) (JStr "") ∧
     populated_count (shape_result result) =
       (if truthy (stdout result) then 1 else 0) + 1
       + (if truthy (compile_output result) then 1 else 0)).
  { intros E3 E5 E6. rewrite (shape_result_other _ E3 E5 E6). unfold populated_count. simpl.
    by rewrite !truthy_js_or_empty, js_or_truthy. }
  split; [|done].
  destruct (decide (status_id_of result = Some 3%Z)) as [E3|E3].
  { destruct (H3 E3) as (_ & _ & _ & _ & ->). lia. }
  destruct (decide (status_id_of result = Some 5%Z)) as [E5|E5].
  { destruct (H5 E5) as [_ ->]. lia. }
  destruct (decide (status_id_of result = Some 6%Z)) as [E6|E6].
  { destruct (H6 E6) as (_ & _ & _ & _ & ->). lia. }
  destruct (Hother E3 E5 E6) as (_ & _ & _ & _ & ->). lia.
Qed.

(** The witness of [executeCode_populated_fields]: a program that does not
    compile. *)
Lemma executeCode_populated_fields_witness :
  let result := engine_result 6 "Compilation Error" JNull JNull
                              (JStr "main.c:1: error: expected ';'") in
  let env := constant_env result in
  let r := with_text result (JStr "") (JStr "") (JStr "main.c:1: error: expected ';'") in
  let w' := {| clock := 15; posts := 1; gets := 1;
               trace := [EvPost {| source_code := "int main(){"; language_id := JNum 50;
                                   stdin := ""; base64_encoded := true |};
                         EvGet (JStr "token")] |} in
  executeCode env "int main(){" "c" "" initial_world = (inr r, w') ∧
  ∃ token w1 fetched,
    submitCode env "int main(){" "c" "" initial_world = (inr token, w1) ∧
    waitForSubmission env token 15000 w1 = (inr fetched, w') ∧
    status r = status fetched ∧ 1 ≤ populated_count r.
Proof.
  intros result env r w'. split; [reflexivity|].
  destruct (executeCode_populated_fields env "int main(){" "c" "" initial_world r w' eq_refl)
    as (token & w1 & fetched & Hsub & Hwait & Hstatus & Hcount & _).
  exists token, w1, fetched. split; [exact Hsub|]. split; [exact Hwait|].
  split; [exact Hstatus|exact Hcount].
Defined.

(** ** Outcome classification *)

Lemma is_completed_status result :
  is_completed result = true → ∃ st, status result = Some st ∧ (2 < status_id st)%Z.
Proof.
  unfold is_completed. destruct (status result) as [st|]; [|done].
  intros H%Z.ltb_lt. eauto.
Qed.

Lemma classify_3 tc result llm used :
  status_id_of result = Some 3%Z →
  classify tc result llm used =
    match compareOutput (stdout result) (JStr (expected_output tc)) with
    | inl e => inl e
    | inr isCorrect =>
        inr {| testCase := tc; verdict := if isCorrect then PASSED else FAILED;
               output := stdout result; expected := expected_output tc;
               executionTime := time result; cr_memory := memory result;
               error := JNull; llmInterpretation := llm; usedInput := used |}
    end.
Proof. unfold classify. by intros ->. Qed.

Lemma classify_4 tc result llm used :
  status_id_of result = Some 4%Z →
  classify tc result llm used =
    inr {| testCase := tc; verdict := FAILED;
           output := stdout result; expected := expected_output tc;
           executionTime := time result; cr_memory := memory result;
           error := JNull; llmInterpretation := llm; usedInput := used |}.
Proof. unfold classify. by intros ->. Qed.

Lemma classify_5 tc result llm used :
  status_id_of result = Some 5%Z →
  classify tc result llm used =
    inr {| testCase := tc; verdict := TLE;
           output := JNull; expected := expected_output tc;
           executionTime := JNull; cr_memory := JNull;
           error := JStr "Time Limit Exceeded";
           llmInterpretation := llm; usedInput := used |}.
Proof. unfold classify. by intros ->. Qed.

Lemma classify_6 tc result llm used :
  status_id_of result = Some 6%Z →
  classify tc result llm used =
    inr {| testCase := tc; verdict := CE;
           output := JNull; expected := expected_output tc;
           executionTime := JNull; cr_memory := JNull;
           error := js_or (compile_output result) (JStr "Compilation Error");
           llmInterpretation := llm; usedInput := used |}.
Proof. unfold classify. by intros ->. Qed.

Lemma classify_other tc result llm used :
  status_id_of result ≠ Some 3%Z → status_id_of result ≠ Some 4%Z →
  status_id_of result ≠ Some 5%Z → status_id_of result ≠ Some 6%Z →
  classify tc result llm used =
    inr {| testCase := tc; verdict := ERROR;
           output := JNull; expected := expected_output tc;
           executionTime := JNull; cr_memory := JNull;
           error := js_or (match status result with
                           | Some st => description st
                           | None => JUndefined
                           end) (JStr "Unknown Error");
           llmInterpretation := llm; usedInput := used |}.
Proof.
  unfold classify. intros H3 H4 H5 H6. by status_cases result.
Qed.

Lemma classify_row tc result llm used entry :
  is_completed result = true →
  classify tc result llm used = inr entry → batch_row tc result entry.
Proof.
  intros (st & Hst & _)%is_completed_status H. unfold batch_row. cbv zeta.
  destruct (classify_inr _ _ _ _ _ H) as (Htc & _ & _).
  split; [done|]. split.
  { revert H. unfold classify.
    destruct (status_id_of result) as [[|p|p]|]; try (by intros [= <-]);
      repeat (first [ by intros [= <-]
                    | destruct (compareOutput _ _); [done|by intros [= <-]]
                    | destruct p as [p|p|] ]). }
  split; [|split; [|split; [|split]]].
  - intros E. rewrite (classify_3 _ _ _ _ E) in H.
    destruct (compareOutput _ _) as [e|b]; [done|]. injection H as <-. by exists b.
  - intros E. rewrite (classify_4 _ _ _ _ E) in H. by injection H as <-.
  - intros E. rewrite (classify_5 _ _ _ _ E) in H. by injection H as <-.
  - intros E. rewrite (classify_6 _ _ _ _ E) in H. by injection H as <-.
  - intros E3 E4 E5 E6. rewrite (classify_other _ _ _ _ E3 E4 E5 E6), Hst in H.
    injection H as <-. simpl. eauto 10.
Qed.

(** A completed result is always entered, unless it was accepted and the
    comparison of its output throws. *)
Lemma classify_total tc result llm used :
  (∃ entry, classify tc result llm used = inr entry) ∨
  (status_id_of result = Some 3%Z ∧
   ∃ e, compareOutput (stdout result) (JStr (expected_output tc)) = inl e ∧
        classify tc result llm used = inl e).
Proof.
  destruct (decide (status_id_of result = Some 3%Z)) as [E3|E3].
  { rewrite (classify_3 _ _ _ _ E3).
    destruct (compareOutput _ _) as [e|b]; [right; eauto|left; eauto]. }
  left.
  destruct (decide (status_id_of result = Some 4%Z)) as [E4|E4].
  { rewrite (classify_4 _ _ _ _ E4). eauto. }
  destruct (decide (status_id_of result = Some 5%Z)) as [E5|E5].
  { rewrite (classify_5 _ _ _ _ E5). eauto. }
  destruct (decide (status_id_of result = Some 6%Z)) as [E6|E6].
  { rewrite (classify_6 _ _ _ _ E6). eauto. }
  rewrite (classify_other _ _ _ _ E3 E4 E5 E6). eauto.
Qed.

Lemma shape_result_row result : single_row result (shape_result result).
Proof.
  unfold single_row. repeat split.
  - intros E. by rewrite (shape_result_3 _ E).
  - intros E. by rewrite (shape_result_5 _ E).
  - intros E. by rewrite (shape_result_6 _ E).
  - intros E3 E5 E6. by rewrite (shape_result_other _ E3 E5 E6).
  - apply shape_result_status.
  - unfold shape_result. by status_cases result.
  - unfold shape_result. by status_cases result.
  - unfold shape_result. by status_cases result.
Qed.

(** C3 as the specification states it fails on the single-execution path: a
    wrong answer that wrote nothing to the error stream comes back with the
    error text "Runtime Error", where the table has the error text as
    received; a run that ended with another code (11, a runtime error) comes
    back with its output, where the table has the output cleared. *)
Lemma single_path_departs_from_table :
  let wrong := engine_result 4 "Wrong Answer" (JStr "5") (JStr "") (JStr "") in
  let crashed := engine_result 11 "Runtime Error (NZEC)" (JStr "partial") (JStr "Traceback")
                               (JStr "") in
  (is_completed wrong = true ∧
   table_4_4_single wrong = (JStr "5", JStr "", JStr "") ∧
   ∃ r w',
     executeCode (constant_env wrong) "print(5)" "python" "" initial_world = (inr r, w') ∧
     text_fields r = (JStr "5", JStr "Runtime Error", JStr "")) ∧
  (is_completed crashed = true ∧
   table_4_4_single crashed = (JStr "", JStr "Runtime Error (NZEC)", JStr "") ∧
   ∃ r w',
     executeCode (constant_env crashed) "print(5)" "python" "" initial_world = (inr r, w') ∧
     text_fields r = (JStr "partial", JStr "Traceback", JStr "")) ∧
  ¬ (∀ result code language input r w',
       is_completed result = true →
       executeCode (constant_env result) code language input initial_world = (inr r, w') →
       text_fields r = table_4_4_single result).
Proof.
  intros wrong crashed. split; [|split].
  - split; [reflexivity|]. split; [reflexivity|]. eexists _, _. split; reflexivity.
  - split; [reflexivity|]. split; [reflexivity|]. eexists _, _. split; reflexivity.
  - intros H. specialize (H wrong "print(5)" "python" "" _ _ eq_refl eq_refl).
    discriminate H.
Qed.

(** C3, amended.  An entry the batch pipeline computes, and a result the
    single-execution path returns, are shaped from the completed result that
    [waitForSubmission] fetched for the submission, by its status code, as
    [batch_row] and [single_row] say; and whenever the submission succeeds
    and a result is fetched, that shaping is what the caller gets.  Batch: 3
    gives PASSED or FAILED by [compareOutput] and 4 gives FAILED, both with
    the output as received; 5 gives TLE, 6 gives CE and any other code gives
    ERROR, all three with the output cleared and with the error text "Time
    Limit Exceeded", the compile diagnostic or "Compilation Error", and the
    status description or "Unknown Error".  Single execution: 3 gives the
    output or "No output"; 5 clears output and compile diagnostic and sets
    the error text "Time Limit Exceeded"; 6 clears output and error text
    and gives the compile diagnostic or "Compilation Error"; every other
    code, 4 included, keeps output and compile diagnostic and gives the
    error text as received or, when that is empty, "Runtime Error". *)
Theorem classification_by_status :
  (∀ env code language tc w entry w',
     case_pipeline env code language tc w = (inr entry, w') →
     ∃ token w1 result,
       submitCode env code language (input_data tc) w = (inr token, w1) ∧
       waitForSubmission env token 30000 w1 = (inr result, w') ∧
       is_completed result = true ∧ batch_row tc result entry) ∧
  (∀ env code language tc w token w1 result w',
     submitCode env code language (input_data tc) w = (inr token, w1) →
     waitForSubmission env token 30000 w1 = (inr result, w') →
     (∃ entry, case_pipeline env code language tc w = (inr entry, w') ∧
               batch_row tc result entry) ∨
     (status_id_of result = Some 3%Z ∧
      ∃ e, compareOutput (stdout result) (JStr (expected_output tc)) = inl e ∧
           case_pipeline env code language tc w = (inl e, w'))) ∧
  (∀ env code language input w r w',
     executeCode env code language input w = (inr r, w') →
     ∃ token w1 result,
       submitCode env code language input w = (inr token, w1) ∧
       waitForSubmission env token 15000 w1 = (inr result, w') ∧
       is_completed result = true ∧ single_row result r) ∧
  (∀ env code language input w token w1 result w',
     submitCode env code language input w = (inr token, w1) →
     waitForSubmission env token 15000 w1 = (inr result, w') →
     ∃ r, executeCode env code language input w = (inr r, w') ∧ single_row result r).
Proof.
  split; [|split; [|split]].
  - intros env code language tc w entry w' H.
    apply case_pipeline_inr in H as (token & w1 & result & Hsub & Hwait & Hdone & Hclass).
    exists token, w1, result. repeat (split; [done|]). by eapply classify_row.
  - intros env code language tc w token w1 result w' Hsub Hwait.
    pose proof (waitForSubmission_completed _ _ _ _ _ _ Hwait) as Hdone.
    unfold case_pipeline, bind, lift. rewrite Hsub, Hwait.
    destruct (classify_total tc result None None) as [[entry Hc]|(E3 & e & Hcmp & Hc)];
      rewrite Hc.
    + left. exists entry. split; [done|]. by eapply classify_row.
    + right. eauto.
  - intros env code language input w r w' H.
    apply executeCode_inr in H as (token & w1 & result & Hsub & Hwait & Hdone & ->).
    exists token, w1, result. repeat (split; [done|]). apply shape_result_row.
  - intros env code language input w token w1 result w' Hsub Hwait.
    exists (shape_result result). split; [|apply shape_result_row].
    unfold executeCode. rewrite try_catch_rethrow. unfold bind, ret.
    by rewrite Hsub, Hwait.
Qed.

(** The witness of [classification_by_status]: an accepted run without
    output, executed on its own. *)
Lemma classification_by_status_witness :
  let fetched := engine_result 3 "Accepted" JNull JNull JNull in
  let env := constant_env fetched in
  let r := with_text fetched (JStr "No output") (JStr "") (JStr "") in
  let w' := {| clock := 15; posts := 1; gets := 1;
               trace := [EvPost {| source_code := "pass"; language_id := JNum 71;
                                   stdin := ""; base64_encoded := true |};
                         EvGet (JStr "token")] |} in
  executeCode env "pass" "python" "" initial_world = (inr r, w') ∧
  ∃ token w1 result,
    submitCode env "pass" "python" "" initial_world = (inr token, w1) ∧
    waitForSubmission env token 15000 w1 = (inr result, w') ∧
    is_completed result = true ∧ single_row result r.
Proof.
  intros fetched env r w'. split; [reflexivity|].
  apply (proj1 (proj2 (proj2 classification_by_status))
           env "pass" "python" "" initial_world r w').
  reflexivity.
Defined.

(** * Further properties of the service *)

(** ** waitForSubmission: where the loop stops *)

(** The iteration at which the loop stops is determined: once the
    iterations before [k] fetched results that are not completed, what
    happens at [k] is what the call returns. *)
Lemma waitForSubmission_stops_at env token maxWaitTime w k :
  let polled j := poll_world env token j w in
  let fetched j := fst (getSubmissionResult env token (polled j)) in
  let in_budget j := (clock (polled j) - clock w < maxWaitTime)%Z in
  let run := waitForSubmission env token maxWaitTime w in
  (∀ j, j < k → in_budget j ∧ ∃ r, fetched j = inr r ∧ is_completed r = false) →
  (in_budget k → ∀ r, fetched k = inr r → is_completed r = true →
     run = (inr r, after_get env token (polled k))) ∧
  (in_budget k → ∀ e, fetched k = inl e →
     run = (inl e, after_get env token (polled k))) ∧
  (¬ in_budget k → run = (inl timeout_error, polled k)).
Proof.
  cbv zeta. intros Hprefix.
  destruct (waitForSubmission_run env token maxWaitTime w) as (k0 & Hbefore & Hat).
  cbv zeta in Hbefore, Hat.
  assert (Hge : k ≤ k0).
  { destruct (le_lt_dec k k0) as [|Hlt]; [done|].
    destruct (Hprefix k0 Hlt) as (Hb & r & Hf & Hc).
    destruct Hat as [(_ & r' & Hf' & Hc' & _)|[(_ & e & Hf' & _)|(Hnb & _)]];
      [congruence|congruence|done]. }
  assert (Hcases : k = k0 ∨
            ((clock (poll_world env token k w) - clock w < maxWaitTime)%Z ∧
             ∃ r, fst (getSubmissionResult env token (poll_world env token k w)) = inr r ∧
                  is_completed r = false)).
  { destruct (le_lt_eq_dec k k0 Hge) as [Hlt|Heq]; [right; by apply Hbefore|by left]. }
  split; [|split].
  - intros Hb r Hf Hc. destruct Hcases as [->|(_ & r' & Hf' & Hc')]; [|congruence].
    destruct Hat as [(_ & r' & Hf' & _ & ->)|[(_ & e & Hf' & _)|(Hnb & _)]];
      [congruence|congruence|done].
  - intros Hb e Hf. destruct Hcases as [->|(_ & r' & Hf' & Hc')]; [|congruence].
    destruct Hat as [(_ & r' & Hf' & _ & _)|[(_ & e' & Hf' & ->)|(Hnb & _)]];
      [congruence|congruence|done].
  - intros Hnb. destruct Hcases as [->|(Hb & _)]; [|done].
    destruct Hat as [(Hb & _)|[(Hb & _)|(_ & ->)]]; done.
Qed.

(** What [waitForSubmission] sends: status requests only, and no more of
    them than the budget holds seconds, rounded up. *)
Lemma waitForSubmission_counts env token maxWaitTime w :
  let run := waitForSubmission env token maxWaitTime w in
  posts (snd run) = posts w ∧
  gets w ≤ gets (snd run) ∧
  gets (snd run) ≤ gets w + Z.to_nat ((maxWaitTime + 999) / 1000).
Proof.
  cbv zeta.
  assert (Hslots : ∀ j, (clock (poll_world env token j w) - clock w < maxWaitTime)%Z →
                        S j ≤ Z.to_nat ((maxWaitTime + 999) / 1000)).
  { intros j Hb. pose proof (poll_world_clock env token j w).
    assert (1000 * Z.of_nat j < maxWaitTime)%Z as Hj by lia.
    assert (Z.of_nat j + 1 ≤ (maxWaitTime + 999) / 1000)%Z; [|lia].
    apply Z.div_le_lower_bound; lia. }
  destruct (waitForSubmission_run env token maxWaitTime w) as (k & Hbefore & Hat).
  cbv zeta in Hbefore, Hat.
  assert (Hend : gets (after_get env token (poll_world env token k w)) = S (gets w + k) ∧
                 posts (after_get env token (poll_world env token k w)) = posts w).
  { unfold after_get. simpl. by rewrite poll_world_gets, poll_world_posts. }
  split; [|split].
  - destruct Hat as [(_ & r & _ & _ & ->)|[(_ & e & _ & ->)|(_ & ->)]]; cbn [fst snd];
      first [apply Hend|apply poll_world_posts].
  - destruct Hat as [(_ & r & _ & _ & ->)|[(_ & e & _ & ->)|(_ & ->)]]; cbn [fst snd];
      rewrite ?(proj1 Hend), ?poll_world_gets; lia.
  - destruct Hat as [(Hb & r & _ & _ & ->)|[(Hb & e & _ & ->)|(_ & ->)]]; cbn [fst snd].
    + rewrite (proj1 Hend). specialize (Hslots k Hb). lia.
    + rewrite (proj1 Hend). specialize (Hslots k Hb). lia.
    + rewrite poll_world_gets. destruct k as [|k]; [lia|].
      destruct (Hbefore k ltac:(lia)) as [Hb _]. specialize (Hslots k Hb). lia.
Qed.

(** X1.  [waitForSubmission] sends status requests only, and no more of
    them than the budget holds seconds, rounded up; with a budget that is
    not positive it fails with the timeout error without sending any. *)
Theorem waitForSubmission_request_bound env token maxWaitTime w :
  let run := waitForSubmission env token maxWaitTime w in
  posts (snd run) = posts w ∧
  gets w ≤ gets (snd run) ∧
  gets (snd run) ≤ gets w + Z.to_nat ((maxWaitTime + 999) / 1000) ∧
  ((maxWaitTime ≤ 0)%Z → run = (inl (new_Error "Submission timeout"), w)).
Proof.
  cbv zeta.
  destruct (waitForSubmission_counts env token maxWaitTime w) as (Hp & Hl & Hu).
  repeat split; try done.
  intros Hmax.
  destruct (waitForSubmission_stops_at env token maxWaitTime w 0) as (_ & _ & Hstop).
  { intros j Hj. lia. }
  apply Hstop. simpl. lia.
Qed.

(** The witness of [waitForSubmission_request_bound]: no budget at all. *)
Lemma waitForSubmission_request_bound_witness :
  (0 ≤ 0)%Z ∧
  waitForSubmission (scripted_env 20 (λ _, 3%Z)) (JStr "token-1") 0 initial_world =
    (inl (new_Error "Submission timeout"), initial_world).
Proof.
  split; [lia|].
  apply (waitForSubmission_request_bound (scripted_env 20 (λ _, 3%Z)) (JStr "token-1") 0
           initial_world). lia.
Defined.

(** X2.  The clock never goes back during [waitForSubmission], and when the
    call fails with the timeout error at least the whole budget has
    elapsed. *)
Theorem waitForSubmission_timeout_not_early env token maxWaitTime w :
  let run := waitForSubmission env token maxWaitTime w in
  (clock w ≤ clock (snd run))%Z ∧
  (fst run = inl (new_Error "Submission timeout") →
   (clock w + maxWaitTime ≤ clock (snd run))%Z).
Proof.
  cbv zeta.
  destruct (waitForSubmission_run env token maxWaitTime w) as (k & Hbefore & Hat).
  cbv zeta in Hbefore, Hat.
  pose proof (poll_world_clock env token k w) as Hk.
  assert (Hafter : (clock (poll_world env token k w) ≤
                    clock (after_get env token (poll_world env token k w)))%Z).
  { unfold after_get. simpl. lia. }
  destruct Hat as [(Hb & r & _ & _ & ->)|[(Hb & e & Hf & ->)|(Hnb & ->)]]; simpl.
  - split; [lia|done].
  - split; [lia|]. intros [= ->].
    rewrite getSubmissionResult_run in Hf. simpl in Hf.
    destruct (outcome _); [|done]. by injection Hf.
  - split; lia.
Qed.

(** The witness of [waitForSubmission_timeout_not_early]: a submission that
    stays in the queue. *)
Lemma waitForSubmission_timeout_not_early_witness :
  let run := waitForSubmission (scripted_env 20 (λ _, 1%Z)) (JStr "token-1") 2500
                               initial_world in
  fst run = inl (new_Error "Submission timeout") ∧
  (clock initial_world + 2500 ≤ clock (snd run))%Z.
Proof.
  split; [reflexivity|].
  apply (waitForSubmission_timeout_not_early (scripted_env 20 (λ _, 1%Z)) (JStr "token-1")
           2500 initial_world). reflexivity.
Defined.

(** X3.  The budget is checked before a status request is sent, not when
    its answer arrives: with a positive budget, a completed answer to the
    first request is returned however long it took, also longer than the
    budget. *)
Theorem waitForSubmission_late_answer env token maxWaitTime w data :
  (0 < maxWaitTime)%Z →
  outcome (get_reply env (gets w) token) = inr data →
  is_completed (decodeBase64Response env data) = true →
  waitForSubmission env token maxWaitTime w =
    (inr (decodeBase64Response env data), after_get env token w) ∧
  clock (after_get env token w) =
    (clock w + Z.of_N (latency (get_reply env (gets w) token)))%Z.
Proof.
  intros Hpos Hdata Hdone. split; [|reflexivity].
  destruct (waitForSubmission_stops_at env token maxWaitTime w 0) as (Hstop & _ & _).
  { intros j Hj. lia. }
  apply Hstop; [simpl; lia| |done]. by apply fetched_answer.
Qed.

(** The witness of [waitForSubmission_late_answer]: the answer takes a
    minute, the budget is a second. *)
Lemma waitForSubmission_late_answer_witness :
  let env := scripted_env 60000 (λ _, 3%Z) in
  let data := {| status := Some {| status_id := 3; description := JNull |};
                 stdout := JNull; stderr := JNull; compile_output := JNull;
                 time := JNull; memory := JNull; other := ∅ |} in
  ((0 < 1000)%Z ∧
   outcome (get_reply env (gets initial_world) (JStr "token-1")) = inr data ∧
   is_completed (decodeBase64Response env data) = true) ∧
  waitForSubmission env (JStr "token-1") 1000 initial_world =
    (inr (decodeBase64Response env data), after_get env (JStr "token-1") initial_world) ∧
  clock (after_get env (JStr "token-1") initial_world) = 60000%Z.
Proof.
  intros env data. split; [by repeat split|].
  apply (waitForSubmission_late_answer env (JStr "token-1") 1000 initial_world data);
    [lia|reflexivity|reflexivity].
Defined.

(** X4.  A status request that fails is not retried: when the requests
    before it were answered with results that are not completed and it is
    sent within the budget, the call ends with the error "Failed to get
    submission result: ..." right after it. *)
Theorem waitForSubmission_no_retry env token maxWaitTime w k e :
  (∀ j, j < k → ∃ data, outcome (get_reply env (gets w + j) token) = inr data ∧
                        is_completed (decodeBase64Response env data) = false) →
  (clock (poll_world env token k w) - clock w < maxWaitTime)%Z →
  outcome (get_reply env (gets w + k) token) = inl e →
  let run := waitForSubmission env token maxWaitTime w in
  fst run = inl (new_Error ("Failed to get submission result: " +:+ message e)) ∧
  gets (snd run) = S (gets w + k).
Proof.
  intros Hprefix Hbudget Hfail. cbv zeta.
  destruct (waitForSubmission_stops_at env token maxWaitTime w k) as (_ & Hstop & _).
  { intros j Hj. split.
    - pose proof (poll_world_clock_mono env token j k w ltac:(lia)). lia.
    - destruct (Hprefix j Hj) as (data & Hd & Hc). eexists. split; [|exact Hc].
      apply fetched_answer. by rewrite poll_world_gets. }
  rewrite (Hstop Hbudget (new_Error ("Failed to get submission result: " +:+ message e))).
  - split; [done|]. unfold after_get. simpl. by rewrite poll_world_gets.
  - rewrite getSubmissionResult_run, poll_world_gets. simpl. by rewrite Hfail.
Qed.

(** The witness of [waitForSubmission_no_retry]: queued, then the engine
    is unreachable. *)
Lemma waitForSubmission_no_retry_witness :
  let env := {| post_reply := λ _ _, mkReply 5 (inr (JStr "token"));
                get_reply := λ n _,
                  if Nat.eqb n 0
                  then mkReply 10 (inr (engine_result 1 "In Queue" JNull JNull JNull))
                  else mkReply 10 (inl {| message := "connect ECONNREFUSED";
                                          response_status := None |});
                base64_to_utf8 := λ s, s;
                interpretTestCases := λ _ _ _, inr [] |} in
  let run := waitForSubmission env (JStr "token") 30000 initial_world in
  fst run = inl (new_Error "Failed to get submission result: connect ECONNREFUSED") ∧
  gets (snd run) = 2.
Proof.
  intros env.
  apply (waitForSubmission_no_retry env (JStr "token") 30000 initial_world 1
           {| message := "connect ECONNREFUSED"; response_status := None |}).
  - intros [|j] Hj; [|lia]. eexists. split; reflexivity.
  - by vm_compute.
  - reflexivity.
Defined.

(** ** submitCode: failures of the request *)

Lemma posted_counts env submission w :
  posts (posted env submission w) = S (posts w) ∧
  gets (posted env submission w) = gets w ∧
  (clock w ≤ clock (posted env submission w))%Z.
Proof. unfold posted. simpl. repeat split; lia. Qed.

(** X5.  When the request of [submitCode] fails, the HTTP status decides
    the message of the error that is thrown: 401, 429 and 500 have their own
    texts, and every other failure is reported as "Failed to submit code: "
    followed by the message of the failure.  The error thrown carries no
    response, and the one request was sent. *)
Theorem submitCode_error_translation env code language input w e :
  truthy (getLanguageId language) = true →
  outcome (post_reply env (posts w)
             {| source_code := code; language_id := getLanguageId language;
                stdin := input; base64_encoded := true |}) = inl e →
  ∃ msg,
    submitCode env code language input w =
      (inl (new_Error msg),
       posted env {| source_code := code; language_id := getLanguageId language;
                     stdin := input; base64_encoded := true |} w) ∧
    (response_status e = Some 401%Z →
       msg = "Judge0 API key is invalid or missing. Please check your JUDGE0_API_KEY environment variable.") ∧
    (response_status e = Some 429%Z →
       msg = "Judge0 API rate limit exceeded. Please try again later.") ∧
    (response_status e = Some 500%Z →
       msg = "Judge0 service is temporarily unavailable. Please try again later.") ∧
    (response_status e ≠ Some 401%Z → response_status e ≠ Some 429%Z →
     response_status e ≠ Some 500%Z →
       msg = "Failed to submit code: " +:+ message e).
Proof.
  intros Hlang Hfail. unfold getLanguageId in *.
  unfold submitCode, try_catch, bind, axios_post, posted. rewrite Hlang. simpl.
  rewrite Hfail. simpl. unfold throw.
  destruct (response_status e) as [[|p|p]|]; try (eexists; split; [reflexivity|]; by repeat split).
  do 9 (destruct p as [p|p|]; try (eexists; split; [reflexivity|]; by repeat split)).
Qed.

(** The witness of [submitCode_error_translation]: the engine answers 429. *)
Lemma submitCode_error_translation_witness :
  let e := {| message := "Request failed with status code 429";
              response_status := Some 429%Z |} in
  let env := {| post_reply := λ _ _, mkReply 5 (inl e);
                get_reply := λ _ _, mkReply 10 (inl (new_Error "unused"));
                base64_to_utf8 := λ s, s;
                interpretTestCases := λ _ _ _, inr [] |} in
  truthy (getLanguageId "Java") = true ∧
  ∃ msg,
    submitCode env "class Main {}" "Java" "" initial_world =
      (inl (new_Error msg),
       posted env {| source_code := "class Main {}"; language_id := getLanguageId "Java";
                     stdin := ""; base64_encoded := true |} initial_world) ∧
    (response_status e = Some 429%Z →
       msg = "Judge0 API rate limit exceeded. Please try again later.").
Proof.
  intros e env. split; [reflexivity|].
  destruct (submitCode_error_translation env "class Main {}" "Java" "" initial_world e
              eq_refl eq_refl) as (msg & Hrun & _ & H429 & _).
  exists msg. split; [exact Hrun|exact H429].
Defined.

(** ** Requests sent by the pipelines *)

Lemma submitCode_counts env code language input w :
  let run := submitCode env code language input w in
  posts w ≤ posts (snd run) ∧ posts (snd run) ≤ S (posts w) ∧
  gets (snd run) = gets w ∧
  (∀ token, fst run = inr token → posts (snd run) = S (posts w)).
Proof.
  cbv zeta. destruct (truthy (getLanguageId language)) eqn:E.
  - destruct (submitCode_resolved env code language input w E) as [-> _].
    destruct (posted_counts env {| source_code := code; language_id := getLanguageId language;
                                   stdin := input; base64_encoded := true |} w)
      as (-> & -> & _).
    repeat split; try lia.
  - rewrite submitCode_unresolved by done. simpl. repeat split; try lia. by intros.
Qed.

(** A submission followed by the wait for its result: one submission at
    most, and no more status requests than [maxWaitTime] holds seconds. *)
Lemma submit_then_wait_counts env code language input maxWaitTime w :
  let run := (await! token := submitCode env code language input in
              waitForSubmission env token maxWaitTime) w in
  posts w ≤ posts (snd run) ∧ posts (snd run) ≤ S (posts w) ∧
  gets w ≤ gets (snd run) ∧
  gets (snd run) ≤ gets w + Z.to_nat ((maxWaitTime + 999) / 1000) ∧
  (∀ r, fst run = inr r → posts (snd run) = S (posts w) ∧ is_completed r = true).
Proof.
  cbv zeta. unfold bind.
  pose proof (submitCode_counts env code language input w) as Hs. cbv zeta in Hs.
  destruct (submitCode env code language input w) as [[e|token] w1]; simpl in Hs |- *.
  - destruct Hs as (? & ? & -> & _).
    split; [lia|split; [lia|split; [lia|split; [lia|by intros]]]].
  - destruct Hs as (? & ? & Hg & Hp).
    pose proof (waitForSubmission_counts env token maxWaitTime w1) as Hw.
    cbv zeta in Hw. destruct Hw as (Hwp & Hwl & Hwu).
    destruct (waitForSubmission env token maxWaitTime w1) as [[e|r] w2] eqn:Hwait;
      simpl in *; rewrite Hwp; (split; [lia|split; [lia|split; [lia|split; [lia|]]]]).
    + by intros.
    + intros r' [= <-]. split; [by apply (Hp token)|]. by eapply waitForSubmission_completed.
Qed.

Lemma executeCode_unfold env code language input w :
  executeCode env code language input w =
    match (await! token := submitCode env code language input in
           waitForSubmission env token 15000) w with
    | (inr result, w') => (inr (shape_result result), w')
    | (inl e, w') => (inl e, w')
    end.
Proof.
  unfold executeCode. rewrite try_catch_rethrow. unfold bind, ret.
  destruct (submitCode env code language input w) as [[e|token] w1]; [done|].
  by destruct (waitForSubmission env token 15000 w1) as [[e|result] w2].
Qed.

Lemma case_pipeline_unfold env code language tc w :
  case_pipeline env code language tc w =
    match (await! token := submitCode env code language (input_data tc) in
           waitForSubmission env token 30000) w with
    | (inr result, w') => (classify tc result None None, w')
    | (inl e, w') => (inl e, w')
    end.
Proof.
  unfold case_pipeline, bind, lift.
  destruct (submitCode env code language (input_data tc) w) as [[e|token] w1]; [done|].
  by destruct (waitForSubmission env token 30000 w1) as [[e|result] w2].
Qed.

Lemma llm_case_pipeline_unfold env code language tc interp w :
  llm_case_pipeline env code language tc (Some interp) w =
    match (await! token := submitCode env code language (inputToUse tc interp) in
           waitForSubmission env token 30000) w with
    | (inr result, w') =>
        (classify tc result (Some (Some interp)) (Some (inputToUse tc interp)), w')
    | (inl e, w') => (inl e, w')
    end.
Proof.
  unfold llm_case_pipeline, bind, lift.
  destruct (submitCode env code language (inputToUse tc interp) w) as [[e|token] w1]; [done|].
  by destruct (waitForSubmission env token 30000 w1) as [[e|result] w2].
Qed.

(** X6.  [executeCode] sends one submission at most and fifteen status
    requests at most.  A language that does not resolve fails with the
    unsupported-language error and nothing is sent; a submission that fails
    is reported with the error of [submitCode], and its status is never
    requested. *)
Theorem executeCode_requests env code language input w :
  let run := executeCode env code language input w in
  posts (snd run) ≤ S (posts w) ∧
  gets (snd run) ≤ gets w + 15 ∧
  (truthy (getLanguageId language) = false →
   run = (inl (new_Error ("Failed to submit code: Unsupported language: " +:+ language)), w)) ∧
  (∀ e w1, submitCode env code language input w = (inl e, w1) →
           run = (inl e, w1) ∧ gets w1 = gets w).
Proof.
  cbv zeta. rewrite executeCode_unfold.
  pose proof (submit_then_wait_counts env code language input 15000 w) as Hc.
  cbv zeta in Hc. destruct Hc as (_ & Hp & _ & Hg & _).
  change (Z.to_nat ((15000 + 999) / 1000)) with 15 in Hg.
  split; [|split; [|split]].
  - by destruct ((await! token := submitCode env code language input in
                  waitForSubmission env token 15000) w) as [[e|r] w'].
  - by destruct ((await! token := submitCode env code language input in
                  waitForSubmission env token 15000) w) as [[e|r] w'].
  - intros Hlang. unfold bind. by rewrite submitCode_unresolved.
  - intros e w1 Hsub. unfold bind. rewrite Hsub. split; [done|].
    pose proof (submitCode_counts env code language input w) as Hs. cbv zeta in Hs.
    rewrite Hsub in Hs. apply Hs.
Qed.

(** The witness of [executeCode_requests]: Ruby is not in the table. *)
Lemma executeCode_requests_witness :
  let env := constant_env (engine_result 3 "Accepted" JNull JNull JNull) in
  truthy (getLanguageId "ruby") = false ∧
  executeCode env "puts 1" "ruby" "" initial_world =
    (inl (new_Error "Failed to submit code: Unsupported language: ruby"), initial_world).
Proof.
  intros env. split; [reflexivity|].
  apply (executeCode_requests env "puts 1" "ruby" "" initial_world). reflexivity.
Defined.



(** ** The batches *)

Lemma for_each_case_unresolved env code language testCases results w :
  truthy (getLanguageId language) = false →
  for_each_case env code language testCases results w =
    (inr (results ++
          map (λ tc, caught tc (new_Error ("Failed to submit code: Unsupported language: "
                                            +:+ language)) None None) testCases), w).
Proof.
  intros Hlang. revert results. induction testCases as [|tc rest IH]; intros results; simpl.
  - by rewrite app_nil_r.
  - unfold bind, try_catch. rewrite case_pipeline_unfold. unfold bind.
    rewrite submitCode_unresolved by done. simpl. rewrite IH. by rewrite <- app_assoc.
Qed.

(** X8.  With a language that does not resolve, [executeTestCases] sends
    nothing and returns, for every test case, the ERROR entry with the
    unsupported-language message. *)
Theorem executeTestCases_unsupported_language env code language testCases w :
  truthy (getLanguageId language) = false →
  executeTestCases env code language testCases w =
    (inr (map (λ tc, caught tc (new_Error ("Failed to submit code: Unsupported language: "
                                            +:+ language)) None None) testCases), w).
Proof.
  intros Hlang. unfold executeTestCases. rewrite try_catch_rethrow.
  by rewrite for_each_case_unresolved.
Qed.

(** The witness of [executeTestCases_unsupported_language]. *)
Lemma executeTestCases_unsupported_language_witness :
  let env := constant_env (engine_result 3 "Accepted" JNull JNull JNull) in
  let tc := {| tc_id := 1; input_data := "1"; expected_output := "1"; is_sample := true |} in
  truthy (getLanguageId "ruby") = false ∧
  executeTestCases env "puts 1" "ruby" [tc] initial_world =
    (inr [caught tc (new_Error "Failed to submit code: Unsupported language: ruby") None None],
     initial_world).
Proof.
  intros env tc. split; [reflexivity|].
  apply (executeTestCases_unsupported_language env "puts 1" "ruby" [tc] initial_world).
  reflexivity.
Defined.

Lemma case_pipeline_counts env code language tc w :
  posts (snd (case_pipeline env code language tc w)) ≤ S (posts w) ∧
  gets (snd (case_pipeline env code language tc w)) ≤ gets w + 30.
Proof.
  rewrite case_pipeline_unfold.
  pose proof (submit_then_wait_counts env code language (input_data tc) 30000 w) as Hc.
  cbv zeta in Hc. destruct Hc as (_ & Hp & _ & Hg & _).
  change (Z.to_nat ((30000 + 999) / 1000)) with 30 in Hg.
  by destruct ((await! token := submitCode env code language (input_data tc) in
                waitForSubmission env token 30000) w) as [[e|r] w'].
Qed.

Lemma llm_case_counts env code language tc interpretation w :
  posts (snd (llm_case env code language tc interpretation w)) ≤ S (posts w) ∧
  gets (snd (llm_case env code language tc interpretation w)) ≤ gets w + 30.
Proof.
  rewrite llm_case_run. destruct interpretation as [interp|]; [|simpl; lia].
  rewrite llm_case_pipeline_unfold.
  pose proof (submit_then_wait_counts env code language (inputToUse tc interp) 30000 w) as Hc.
  cbv zeta in Hc. destruct Hc as (_ & Hp & _ & Hg & _).
  change (Z.to_nat ((30000 + 999) / 1000)) with 30 in Hg.
  destruct ((await! token := submitCode env code language (inputToUse tc interp) in
             waitForSubmission env token 30000) w) as [[e|r] w']; [done|].
  by destruct (classify tc r _ _).
Qed.

Lemma batch_run_counts env code language testCases w entries w' :
  batch_run env code language testCases w entries w' →
  posts w' ≤ posts w + length testCases ∧ gets w' ≤ gets w + 30 * length testCases.
Proof.
  induction 1 as [|tc rest w entry w1 entries w2 Hcase _ IH
                  |tc rest w e w1 entries w2 Hcase _ IH]; simpl; [lia| |];
    pose proof (case_pipeline_counts env code language tc w) as Hc;
    rewrite Hcase in Hc; simpl in Hc; lia.
Qed.

Lemma llm_run_counts env code language interpreted i testCases w steps w' :
  llm_run env code language interpreted i testCases w steps w' →
  posts w' ≤ posts w + length testCases ∧ gets w' ≤ gets w + 30 * length testCases.
Proof.
  induction 1 as [j w|j tc rest w entry w1 steps w2 Hcase _ IH]; simpl; [lia|].
  pose proof (llm_case_counts env code language tc (interpreted !! j) w) as Hc.
  rewrite Hcase in Hc. simpl in Hc. lia.
Qed.

Lemma executeTestCasesWithLLM_run env code language testCases problemContext interpreted w :
  interpretTestCases env testCases language problemContext = inr interpreted →
  ∃ steps w',
    executeTestCasesWithLLM env code language testCases problemContext w =
      (inr (map step_entry steps), w') ∧
    llm_run env code language interpreted 0 testCases w steps w'.
Proof.
  intros Hinterp.
  destruct (llm_loop_run env code language interpreted 0 testCases [] w)
    as (steps & w' & Hloop & Hrun).
  exists steps, w'. split; [|done].
  unfold executeTestCasesWithLLM. rewrite try_catch_rethrow.
  unfold bind, lift. by rewrite Hinterp, Hloop.
Qed.

(** X9.  A batch of [n] test cases sends [n] submissions at most and
    [30 * n] status requests at most, with or without interpretation. *)
Theorem batch_request_bound env code language testCases problemContext w :
  let plain := executeTestCases env code language testCases w in
  let interpreted := executeTestCasesWithLLM env code language testCases problemContext w in
  posts (snd plain) ≤ posts w + length testCases ∧
  gets (snd plain) ≤ gets w + 30 * length testCases ∧
  posts (snd interpreted) ≤ posts w + length testCases ∧
  gets (snd interpreted) ≤ gets w + 30 * length testCases.
Proof.
  cbv zeta.
  assert (Hplain : posts (snd (executeTestCases env code language testCases w)) ≤
                     posts w + length testCases ∧
                   gets (snd (executeTestCases env code language testCases w)) ≤
                     gets w + 30 * length testCases).
  { destruct (for_each_case_run env code language testCases [] w)
      as (entries & w' & Hloop & Hrun).
    unfold executeTestCases. rewrite try_catch_rethrow, Hloop. simpl.
    by eapply batch_run_counts. }
  destruct Hplain as [? ?]. split; [done|]. split; [done|].
  destruct (interpretTestCases env testCases language problemContext)
    as [e|interp] eqn:Hinterp.
  - unfold executeTestCasesWithLLM. rewrite try_catch_rethrow.
    unfold bind, lift. rewrite Hinterp. simpl. lia.
  - destruct (executeTestCasesWithLLM_run env code language testCases problemContext
                interp w Hinterp) as (steps & w' & -> & Hrun).
    simpl. by eapply llm_run_counts.
Qed.

(** ** Verdicts *)

Lemma compareOutput_true actual expected :
  compareOutput actual expected = inr true →
  ∃ a e, actual = JStr a ∧ expected = JStr e ∧ a ≠ "" ∧ e ≠ "" ∧
         replace_crlf (trim a) = replace_crlf (trim e).
Proof.
  unfold compareOutput.
  destruct (truthy actual) eqn:Ha; [|done]. destruct (truthy expected) eqn:He; [|done].
  simpl. destruct actual as [| | | |a|]; try done; destruct expected as [| | | |e|]; try done.
  intros [= Heq%String.eqb_eq]. exists a, e.
  apply truthy_JStr in Ha, He. done.
Qed.

Lemma classify_PASSED tc result llm used entry :
  classify tc result llm used = inr entry →
  verdict entry = PASSED → passed_is_backed entry.
Proof.
  intros H Hv.
  destruct (decide (status_id_of result = Some 3%Z)) as [E3|E3].
  { rewrite (classify_3 _ _ _ _ E3) in H.
    destruct (compareOutput _ _) as [e|[]] eqn:Hcmp; [done| |by injection H as <-].
    injection H as <-.
    apply compareOutput_true in Hcmp as (a & e & Ha & [= <-] & ? & ? & ?).
    exists a. by repeat split. }
  destruct (decide (status_id_of result = Some 4%Z)) as [E4|E4].
  { rewrite (classify_4 _ _ _ _ E4) in H. by injection H as <-. }
  destruct (decide (status_id_of result = Some 5%Z)) as [E5|E5].
  { rewrite (classify_5 _ _ _ _ E5) in H. by injection H as <-. }
  destruct (decide (status_id_of result = Some 6%Z)) as [E6|E6].
  { rewrite (classify_6 _ _ _ _ E6) in H. by injection H as <-. }
  rewrite (classify_other _ _ _ _ E3 E4 E5 E6) in H. by injection H as <-.
Qed.

Lemma batch_run_PASSED env code language testCases w entries w' :
  batch_run env code language testCases w entries w' →
  ∀ entry, entry ∈ entries → verdict entry = PASSED → passed_is_backed entry.
Proof.
  induction 1 as [|tc rest w entry0 w1 entries w2 Hcase _ IH
                  |tc rest w e w1 entries w2 Hcase _ IH]; intros entry Hin Hv.
  - by apply elem_of_nil in Hin.
  - apply elem_of_cons in Hin as [->|Hin]; [|by apply IH].
    apply case_pipeline_inr in Hcase as (_ & _ & result & _ & _ & _ & Hclass).
    by eapply classify_PASSED.
  - apply elem_of_cons in Hin as [->|Hin]; [done|by apply IH].
Qed.

Lemma llm_case_origin env code language tc interpretation w entry w' :
  llm_case env code language tc interpretation w = (inr entry, w') →
  (∃ interp result, interpretation = Some interp ∧
     classify tc result (Some (Some interp)) (Some (inputToUse tc interp)) = inr entry) ∨
  (∃ e, entry = caught tc e (Some interpretation) (Some (input_data tc))).
Proof.
  rewrite llm_case_run. destruct interpretation as [interp|].
  - rewrite llm_case_pipeline_unfold.
    destruct ((await! token := submitCode env code language (inputToUse tc interp) in
               waitForSubmission env token 30000) w) as [[e|result] w1].
    + intros [= <- _]. right. by exists e.
    + destruct (classify tc result _ _) as [e|entry'] eqn:Hclass.
      * intros [= <- _]. right. by exists e.
      * intros [= <- _]. left. by exists interp, result.
  - simpl. intros [= <- _]. right. by eexists.
Qed.

Lemma llm_run_PASSED env code language interpreted i testCases w steps w' :
  llm_run env code language interpreted i testCases w steps w' →
  ∀ entry, entry ∈ map step_entry steps → verdict entry = PASSED → passed_is_backed entry.
Proof.
  induction 1 as [j w|j tc rest w entry0 w1 steps w2 Hcase _ IH]; intros entry Hin Hv.
  - by apply elem_of_nil in Hin.
  - simpl in Hin. apply elem_of_cons in Hin as [->|Hin]; [|by apply IH].
    unfold step_entry in Hv |- *. simpl in Hv |- *.
    apply llm_case_origin in Hcase as [(interp & result & _ & Hclass)|(e & ->)]; [|done].
    by eapply classify_PASSED.
Qed.

(** X10.  In what either batch returns, an entry is PASSED only when the
    run was accepted and its output, a non-empty text, equals the expected
    output, itself not empty, after [trim] and after replacing CR LF by LF.
    A test case whose expected output is empty, or a run that prints
    nothing, is therefore never PASSED. *)
Theorem passed_entries_are_backed :
  (∀ env code language testCases w results w',
     executeTestCases env code language testCases w = (inr results, w') →
     ∀ entry, entry ∈ results → verdict entry = PASSED → passed_is_backed entry) ∧
  (∀ env code language testCases problemContext w results w',
     executeTestCasesWithLLM env code language testCases problemContext w =
       (inr results, w') →
     ∀ entry, entry ∈ results → verdict entry = PASSED → passed_is_backed entry).
Proof.
  split.
  - intros env code language testCases w results w' Hrun.
    destruct (for_each_case_run env code language testCases [] w)
      as (entries & w1 & Hloop & Hbatch).
    unfold executeTestCases in Hrun. rewrite try_catch_rethrow, Hloop in Hrun.
    injection Hrun as <- _. by eapply batch_run_PASSED.
  - intros env code language testCases problemContext w results w' Hrun.
    destruct (interpretTestCases env testCases language problemContext)
      as [e|interpreted] eqn:Hinterp.
    + unfold executeTestCasesWithLLM in Hrun. rewrite try_catch_rethrow in Hrun.
      unfold bind, lift in Hrun. by rewrite Hinterp in Hrun.
    + destruct (executeTestCasesWithLLM_run env code language testCases problemContext
                  interpreted w Hinterp) as (steps & w1 & Hexec & Hllm).
      rewrite Hexec in Hrun. injection Hrun as <- _. by eapply llm_run_PASSED.
Qed.

(** The witness of [passed_entries_are_backed]: one accepted case whose
    output is the expected one. *)
Lemma passed_entries_are_backed_witness :
  let env := constant_env (engine_result 3 "Accepted" (JStr "3") JNull JNull) in
  let tc := {| tc_id := 1; input_data := "1 2"; expected_output := "3"; is_sample := true |} in
  let entry := {| testCase := tc; verdict := PASSED; output := JStr "3"; expected := "3";
                  executionTime := JStr "0.004"; cr_memory := JNum 1024; error := JNull;
                  llmInterpretation := None; usedInput := None |} in
  let w' := {| clock := 15; posts := 1; gets := 1;
               trace := [EvPost {| source_code := "print(3)"; language_id := JNum 71;
                                   stdin := "1 2"; base64_encoded := true |};
                         EvGet (JStr "token")] |} in
  executeTestCases env "print(3)" "python" [tc] initial_world = (inr [entry], w') ∧
  passed_is_backed entry.
Proof.
  intros env tc entry w'. split; [reflexivity|].
  apply (proj1 passed_entries_are_backed env "print(3)" "python" [tc] initial_world
           [entry] w' eq_refl entry); [|reflexivity].
  apply list_elem_of_singleton. reflexivity.
Defined.

(** ** executeTestCasesWithLLM: what the entries record *)

Lemma llm_case_entry env code language tc interpretation w entry w' :
  llm_case env code language tc interpretation w = (inr entry, w') →
  testCase entry = tc ∧ llmInterpretation entry = Some interpretation ∧
  ∃ used, usedInput entry = Some used.
Proof.
  intros [(interp & result & -> & Hclass)|(e & ->)]%llm_case_origin.
  - apply classify_inr in Hclass as (? & ? & ?). eauto.
  - simpl. eauto.
Qed.

(** X11.  When the interpretation service has answered, the interpreted
    batch returns the entries of the test cases in their order, and the
    entry at index [i] records the interpretation found at index [i],
    whatever the lengths of the two lists, together with an input. *)
Theorem executeTestCasesWithLLM_shape
    env code language testCases problemContext interpreted w :
  interpretTestCases env testCases language problemContext = inr interpreted →
  ∃ results w',
    executeTestCasesWithLLM env code language testCases problemContext w = (inr results, w') ∧
    map testCase results = testCases ∧
    ∀ i entry, results !! i = Some entry →
      llmInterpretation entry = Some (interpreted !! i) ∧
      ∃ used, usedInput entry = Some used.
Proof.
  intros Hinterp.
  destruct (executeTestCasesWithLLM_run env code language testCases problemContext
              interpreted w Hinterp) as (steps & w' & Hexec & Hrun).
  destruct (llm_run_lookup _ _ _ _ _ _ _ _ _ Hrun) as [Hlen Hlookup].
  exists (map step_entry steps), w'. split; [done|]. split.
  - apply list_eq. intros i. rewrite !list_lookup_fmap.
    destruct (testCases !! i) as [tc|] eqn:Hi.
    + destruct (Hlookup i tc Hi) as (wi & entry & wi' & -> & Hcase). simpl in Hcase.
      apply llm_case_entry in Hcase as (Htc & _). simpl. unfold step_entry. simpl.
      by rewrite Htc.
    + apply lookup_ge_None in Hi. rewrite <- Hlen in Hi.
      apply lookup_ge_None in Hi. by rewrite Hi.
  - intros i entry Hentry. rewrite list_lookup_fmap in Hentry.
    destruct (steps !! i) as [[[wi entry'] wi']|] eqn:Hstep; [|done].
    injection Hentry as <-.
    assert (is_Some (testCases !! i)) as [tc Hi].
    { apply lookup_lt_is_Some. rewrite <- Hlen. apply lookup_lt_is_Some. eauto. }
    destruct (Hlookup i tc Hi) as (wj & entry & wj' & Hstep' & Hcase).
    rewrite Hstep in Hstep'. injection Hstep' as <- <- <-. simpl in Hcase.
    by apply llm_case_entry in Hcase as (_ & ? & ?).
Qed.

(** The witness of [executeTestCasesWithLLM_shape]: two test cases, one
    interpretation. *)
Lemma executeTestCasesWithLLM_shape_witness :
  let interp := {| success := true; formatted_input := Some "1 2" |} in
  let env := {| post_reply := λ _ _, mkReply 5 (inr (JStr "token"));
                get_reply := λ _ _,
                  mkReply 10 (inr (engine_result 3 "Accepted" (JStr "3") JNull JNull));
                base64_to_utf8 := λ s, s;
                interpretTestCases := λ _ _ _, inr [interp] |} in
  let testCases := [ {| tc_id := 1; input_data := "[1,2]"; expected_output := "3";
                        is_sample := true |};
                     {| tc_id := 2; input_data := "[2,3]"; expected_output := "5";
                        is_sample := false |} ] in
  interpretTestCases env testCases "python" "" = inr [interp] ∧
  ∃ results w',
    executeTestCasesWithLLM env "print(3)" "python" testCases "" initial_world =
      (inr results, w') ∧
    map testCase results = testCases.
Proof.
  intros interp env testCases. split; [reflexivity|].
  destruct (executeTestCasesWithLLM_shape env "print(3)" "python" testCases "" [interp]
              initial_world eq_refl) as (results & w' & Hrun & Hmap & _).
  exists results, w'. split; [exact Hrun|exact Hmap].
Defined.

Lemma llm_run_no_interpretation env code language testCases i w steps w' :
  llm_run env code language [] i testCases w steps w' → w' = w.
Proof.
  induction 1 as [j w|j tc rest w entry w1 steps w2 Hcase _ IH]; [done|].
  rewrite lookup_nil in Hcase. rewrite llm_case_run in Hcase. simpl in Hcase.
  injection Hcase as _ <-. exact IH.
Qed.

(** ** compareOutput: what it is insensitive to *)

Lemma trimStart_all_space s : all_space s = true → trimStart s = "".
Proof.
  induction s as [|c s IH]; simpl; [done|].
  intros [Hc Hs]%andb_true_iff. rewrite Hc. auto.
Qed.

Lemma trimEnd_all_space s : all_space s = true → trimEnd s = "".
Proof.
  induction s as [|c s IH]; simpl; [done|].
  intros [Hc Hs]%andb_true_iff. by rewrite (IH Hs), Hc.
Qed.

Lemma trimStart_app_l l s : all_space l = true → trimStart (l +:+ s) = trimStart s.
Proof.
  induction l as [|c l IH]; [done|]. simpl.
  intros [Hc Hl]%andb_true_iff. rewrite Hc. auto.
Qed.

Lemma trimStart_id s : starts_with_space s = false → trimStart s = s.
Proof. destruct s as [|c s]; simpl; [done|]. by intros ->. Qed.

Lemma trimEnd_app_r s r : all_space r = true → trimEnd (s +:+ r) = trimEnd s.
Proof.
  intros Hr. induction s as [|c s IH].
  - rewrite append_empty. by apply trimEnd_all_space.
  - rewrite append_String. simpl. by rewrite IH.
Qed.

Lemma trimEnd_id s : ends_with_space s = false → trimEnd s = s.
Proof.
  induction s as [|c s IH]; [done|].
  destruct s as [|d t].
  - simpl. by intros ->.
  - intros H. change (ends_with_space (String d t) = false) in H.
    change (trimEnd (String c (String d t))) with
      (match trimEnd (String d t) with
       | EmptyString => if is_js_space c then EmptyString else String c EmptyString
       | r' => String c r'
       end).
    by rewrite (IH H).
Qed.

Lemma append_assoc_s (x y z : string) : (x +:+ y) +:+ z = x +:+ (y +:+ z).
Proof. induction x as [|c x IH]; [done|]. by rewrite !append_String, IH. Qed.

(** [trim] does not see white space added around a text. *)
Lemma trim_app l a r :
  all_space l = true → all_space r = true → trim (l +:+ a +:+ r) = trim a.
Proof.
  intros Hl Hr. unfold trim. rewrite trimStart_app_l by done.
  destruct (trimStart_spec a) as (la & Ha & Hla & Hstart).
  rewrite Ha at 1. rewrite append_assoc_s, trimStart_app_l by done.
  destruct (trimStart a) as [|c t] eqn:E.
  - rewrite append_empty, trimStart_all_space by done. done.
  - rewrite (trimStart_id (String c t +:+ r)) by (rewrite append_String; exact Hstart).
    by apply trimEnd_app_r.
Qed.

Lemma trim_id s :
  starts_with_space s = false → ends_with_space s = false → trim s = s.
Proof. intros Hs He. unfold trim. rewrite trimStart_id by done. by apply trimEnd_id. Qed.

Lemma append_not_empty l a r : a ≠ "" → l +:+ a +:+ r ≠ "".
Proof.
  intros Ha. destruct l as [|c l]; [|done]. rewrite append_empty.
  destruct a as [|c a]; done.
Qed.

(** X15.  White space around the actual output does not change the answer
    of [compareOutput], whatever the expected value is. *)
Theorem compareOutput_ignores_surrounding_space l a r expected :
  all_space l = true → all_space r = true → a ≠ "" →
  compareOutput (JStr (l +:+ a +:+ r)) expected = compareOutput (JStr a) expected.
Proof.
  intros Hl Hr Ha. unfold compareOutput.
  pose proof (append_not_empty l a r Ha) as Hne.
  apply truthy_JStr in Ha, Hne. rewrite Ha, Hne.
  destruct (truthy expected); [|done]. simpl.
  destruct expected; try done. by rewrite trim_app.
Qed.

(** The witness of [compareOutput_ignores_surrounding_space]. *)
Lemma compareOutput_ignores_surrounding_space_witness :
  (all_space "  " = true ∧ all_space (String LF "") = true ∧ "42" ≠ "") ∧
  compareOutput (JStr ("  " +:+ "42" +:+ String LF "")) (JStr "42") =
    compareOutput (JStr "42") (JStr "42").
Proof.
  split; [by repeat split|].
  by apply (compareOutput_ignores_surrounding_space "  " "42" (String LF "") (JStr "42")).
Defined.

(** X16.  Two non-empty texts that consist of white space only compare
    equal, while the empty text compares equal to nothing, not even to
    itself. *)
Theorem compareOutput_blank a e :
  all_space a = true → all_space e = true → a ≠ "" → e ≠ "" →
  compareOutput (JStr a) (JStr e) = inr true ∧
  compareOutput (JStr "") (JStr e) = inr false ∧
  compareOutput (JStr "") (JStr "") = inr false.
Proof.
  intros Ha He Hna Hne. split; [|done]. unfold compareOutput.
  apply truthy_JStr in Hna, Hne. rewrite Hna, Hne. simpl.
  unfold trim. by rewrite !trimStart_all_space.
Qed.

(** The witness of [compareOutput_blank]: a blank against a line feed. *)
Lemma compareOutput_blank_witness :
  (all_space " " = true ∧ all_space (String LF "") = true ∧ " " ≠ "" ∧ String LF "" ≠ "") ∧
  compareOutput (JStr " ") (JStr (String LF "")) = inr true.
Proof.
  split; [by repeat split|].
  by apply (compareOutput_blank " " (String LF "")).
Defined.

(** X17.  On non-empty texts [compareOutput] is an equivalence: every text
    matches itself, the two sides can be exchanged, and two texts that
    match a third match each other. *)
Theorem compareOutput_equivalence :
  (∀ a, a ≠ "" → compareOutput (JStr a) (JStr a) = inr true) ∧
  (∀ a b, compareOutput (JStr a) (JStr b) = compareOutput (JStr b) (JStr a)) ∧
  (∀ a b c, compareOutput (JStr a) (JStr b) = inr true →
            compareOutput (JStr b) (JStr c) = inr true →
            compareOutput (JStr a) (JStr c) = inr true).
Proof.
  split; [|split].
  - intros a Ha. unfold compareOutput. apply truthy_JStr in Ha. rewrite Ha. simpl.
    by rewrite String.eqb_refl.
  - intros a b. unfold compareOutput. rewrite orb_comm.
    destruct (negb (truthy (JStr b)) || negb (truthy (JStr a))); [done|].
    simpl. by rewrite String.eqb_sym.
  - intros a b c (? & ? & [= <-] & [= <-] & Ha & Hb & Hab)%compareOutput_true
                 (? & ? & [= <-] & [= <-] & _ & Hc & Hbc)%compareOutput_true.
    unfold compareOutput. apply truthy_JStr in Ha, Hc. rewrite Ha, Hc. simpl.
    rewrite Hab, Hbc. by rewrite String.eqb_refl.
Qed.

(** The witness of [compareOutput_equivalence]. *)
Lemma compareOutput_equivalence_witness :
  "7" ≠ "" ∧ compareOutput (JStr "7") (JStr "7") = inr true.
Proof. split; [done|]. by apply (proj1 compareOutput_equivalence "7"). Defined.

(** X18.  [compareOutput] throws exactly when both sides are truthy and one
    of them is not a string; on strings and on absent values it always
    answers. *)
Theorem compareOutput_throws actual expected :
  (∃ e, compareOutput actual expected = inl e) ↔
  truthy actual = true ∧ truthy expected = true ∧
  (is_text actual = false ∨ is_text expected = false).
Proof.
  unfold compareOutput. split.
  - intros [e H]. destruct (truthy actual); [|done]. destruct (truthy expected); [|done].
    simpl in H. split; [done|]. split; [done|].
    destruct actual; simpl; auto; destruct expected; simpl; auto. done.
  - intros (-> & -> & H). simpl.
    destruct actual; simpl in *; eauto; destruct expected; simpl in *; eauto.
    by destruct H.
Qed.

(** The witness of [compareOutput_throws]: a number where the output was
    expected. *)
Lemma compareOutput_throws_witness :
  (truthy (JNum 42) = true ∧ truthy (JStr "42") = true ∧
   (is_text (JNum 42) = false ∨ is_text (JStr "42") = false)) ∧
  ∃ e, compareOutput (JNum 42) (JStr "42") = inl e.
Proof.
  split; [by repeat split; auto|].
  apply (proj2 (compareOutput_throws (JNum 42) (JStr "42"))). by repeat split; auto.
Defined.

Lemma to_crlf_app x y : to_crlf (x +:+ y) = to_crlf x +:+ to_crlf y.
Proof.
  induction x as [|c x IH]; [done|]. rewrite append_String. simpl.
  destruct (Ascii.eqb c LF); by rewrite IH.
Qed.

Lemma all_space_to_crlf s : all_space s = true → all_space (to_crlf s) = true.
Proof.
  induction s as [|c s IH]; [done|]. simpl. intros [Hc Hs]%andb_true_iff.
  destruct (Ascii.eqb c LF); simpl; rewrite ?Hc; auto.
Qed.

Lemma starts_with_space_to_crlf s :
  starts_with_space s = false → starts_with_space (to_crlf s) = false.
Proof.
  destruct s as [|c s]; [done|]. simpl. intros Hc.
  destruct (Ascii.eqb_spec c LF) as [->|]; [done|]. exact Hc.
Qed.

Lemma ends_with_space_to_crlf s :
  ends_with_space s = false → ends_with_space (to_crlf s) = false.
Proof.
  induction s as [|c s IH]; [done|]. destruct s as [|d t].
  - simpl. intros Hc. destruct (Ascii.eqb_spec c LF) as [->|]; [done|]. exact Hc.
  - intros H. change (ends_with_space (String d t) = false) in H. specialize (IH H).
    change (to_crlf (String c (String d t))) with
      (if Ascii.eqb c LF then String CR (String LF (to_crlf (String d t)))
       else String c (to_crlf (String d t))).
    destruct (to_crlf (String d t)) as [|d' t'] eqn:E.
    { simpl in E. by destruct (Ascii.eqb d LF). }
    by destruct (Ascii.eqb c LF).
Qed.

(** What [to_crlf] writes never starts with a line feed. *)
Lemma to_crlf_head s :
  match to_crlf s with
  | String d _ => Ascii.eqb d LF = false
  | EmptyString => True
  end.
Proof.
  destruct s as [|c s]; [done|]. simpl.
  destruct (Ascii.eqb c LF) eqn:E; [done|exact E].
Qed.

(** Replacing CR LF by LF undoes [to_crlf]. *)
Lemma replace_crlf_to_crlf s : replace_crlf (to_crlf s) = s.
Proof.
  induction s as [|c s IH]; [done|]. simpl.
  destruct (Ascii.eqb_spec c LF) as [->|Hc].
  - fold (CRLF (to_crlf s)). by rewrite replace_crlf_pair, IH.
  - pose proof (to_crlf_head s) as Hhead.
    destruct (to_crlf s) as [|d t] eqn:E.
    + simpl. by rewrite <- IH.
    + change (replace_crlf (String c (String d t))) with
        (if Ascii.eqb c CR && Ascii.eqb d LF then replace_crlf (String d t)
         else String c (replace_crlf (String d t))).
      by rewrite Hhead, andb_false_r, IH.
Qed.

Lemma has_crlf_app x y :
  has_crlf (x +:+ y) = false → has_crlf x = false ∧ has_crlf y = false.
Proof.
  induction x as [|c x IH]; [done|]. rewrite append_String.
  destruct x as [|d t].
  - rewrite append_empty. destruct y as [|d t]; [done|].
    change (has_crlf (String c (String d t))) with
      (Ascii.eqb c CR && Ascii.eqb d LF || has_crlf (String d t)).
    by intros [_ ?]%orb_false_iff.
  - rewrite append_String.
    change (has_crlf (String c (String d (t +:+ y)))) with
      (Ascii.eqb c CR && Ascii.eqb d LF || has_crlf (String d (t +:+ y))).
    intros [Hcd Hrest]%orb_false_iff. rewrite <- append_String in Hrest.
    destruct (IH Hrest) as [Hx Hy]. split; [|done].
    change (has_crlf (String c (String d t))) with
      (Ascii.eqb c CR && Ascii.eqb d LF || has_crlf (String d t)).
    by rewrite Hcd, Hx.
Qed.

Lemma to_crlf_not_empty s : s ≠ "" → to_crlf s ≠ "".
Proof. destruct s as [|c s]; [done|]. simpl. by destruct (Ascii.eqb c LF). Qed.

(** X19.  Line endings do not matter to [compareOutput]: an actual output
    without CR LF pairs gets the same answer when each of its line feeds is
    written as CR LF. *)
Theorem compareOutput_ignores_line_endings a expected :
  a ≠ "" → has_crlf a = false →
  compareOutput (JStr (to_crlf a)) expected = compareOutput (JStr a) expected.
Proof.
  intros Ha Hunix. unfold compareOutput.
  pose proof (to_crlf_not_empty a Ha) as Hne.
  apply truthy_JStr in Ha, Hne. rewrite Ha, Hne.
  destruct (truthy expected); [|done]. simpl.
  destruct expected as [| | | |e|]; try done.
  destruct (trim_spec a) as (l & r & Hdec & Hl & Hr & Hstart & Hend).
  assert (trim (to_crlf a) = to_crlf (trim a)) as ->.
  { rewrite Hdec at 1. rewrite !to_crlf_app.
    rewrite trim_app by (by apply all_space_to_crlf).
    apply trim_id; [by apply starts_with_space_to_crlf|by apply ends_with_space_to_crlf]. }
  rewrite replace_crlf_to_crlf.
  rewrite Hdec in Hunix. apply has_crlf_app in Hunix as [_ Hunix].
  apply has_crlf_app in Hunix as [Hunix _].
  by rewrite (replace_crlf_id _ Hunix).
Qed.

(** The witness of [compareOutput_ignores_line_endings]: two lines. *)
Lemma compareOutput_ignores_line_endings_witness :
  ("1" +:+ String LF "2" ≠ "" ∧ has_crlf ("1" +:+ String LF "2") = false) ∧
  compareOutput (JStr (to_crlf ("1" +:+ String LF "2"))) (JStr ("1" +:+ String LF "2")) =
    compareOutput (JStr ("1" +:+ String LF "2")) (JStr ("1" +:+ String LF "2")).
Proof.
  split; [by split|].
  by apply (compareOutput_ignores_line_endings ("1" +:+ String LF "2")).
Defined.

(** ** The supported languages *)

Lemma languageMap_entries : languageMap = list_to_map languageEntries.
Proof. reflexivity. Qed.

Lemma getSupportedLanguages_lookup key :
  key ∈ getSupportedLanguages ↔ is_Some (languageMap !! key).
Proof.
  split.
  - unfold getSupportedLanguages, languageEntries. simpl.
    rewrite !elem_of_cons. intros [->|[->|[->|[->|[->|H]]]]]; try (by eexists).
    by apply elem_of_nil in H.
  - intros [n Hn]. apply languageMap_lookup in Hn.
    unfold getSupportedLanguages, languageEntries. simpl. rewrite !elem_of_cons.
    destruct Hn as [[-> _]|[[-> _]|[[-> _]|[[-> _]|[-> _]]]]]; auto 10.
Qed.

(** X20.  [getSupportedLanguages] lists, without repetition, exactly the
    names [getLanguageId] resolves to a number, up to case: a language has
    a numeric id exactly when its lower-case form is listed, every listed
    name is its own lower-case form, and [submitCode] sends every listed
    name with its numeric id. *)
Theorem getSupportedLanguages_agree :
  NoDup getSupportedLanguages ∧
  (∀ language, (∃ n, getLanguageId language = JNum n) ↔
               toLowerCase language ∈ getSupportedLanguages) ∧
  (∀ language, language ∈ getSupportedLanguages → toLowerCase language = language) ∧
  (∀ language, language ∈ getSupportedLanguages →
     ∀ env code input w, ∃ n,
       languageMap !! language = Some n ∧
       trace (snd (submitCode env code language input w)) =
         trace w ++ [EvPost {| source_code := code; language_id := JNum n;
                               stdin := input; base64_encoded := true |}]).
Proof.
  assert (Hlower : ∀ language, language ∈ getSupportedLanguages →
                               toLowerCase language = language).
  { unfold getSupportedLanguages, languageEntries. simpl. intros language.
    rewrite !elem_of_cons. intros [->|[->|[->|[->|[->|H]]]]]; try done.
    by apply elem_of_nil in H. }
  split; [|split; [|split]].
  - apply (bool_decide_unpack _). by vm_compute.
  - intros language. rewrite getSupportedLanguages_lookup.
    unfold getLanguageId, languageMap_get. split.
    + intros [n Hn]. destruct (languageMap !! toLowerCase language); [by eexists|].
      by case_bool_decide.
    + intros [n ->]. by exists n.
  - exact Hlower.
  - intros language Hin env code input w.
    pose proof (Hlower language Hin) as Hl.
    apply getSupportedLanguages_lookup in Hin as [n Hn]. exists n. split; [done|].
    rewrite <- Hl in Hn.
    destruct (submitCode_language_guard env code language input w) as [Hpost _].
    exact (Hpost n Hn).
Qed.

(** The witness of [getSupportedLanguages_agree]. *)
Lemma getSupportedLanguages_agree_witness :
  "cpp" ∈ getSupportedLanguages ∧ toLowerCase "cpp" = "cpp".
Proof.
  assert (H : "cpp" ∈ getSupportedLanguages) by (apply getSupportedLanguages_lookup; by eexists).
  split; [exact H|]. by apply (proj1 (proj2 (proj2 getSupportedLanguages_agree)) "cpp").
Defined.

(** ** executeTestCases: the order of the submissions *)

Lemma submitted_inputs_app l1 l2 :
  submitted_inputs (l1 ++ l2) = submitted_inputs l1 ++ submitted_inputs l2.
Proof. apply omap_app. Qed.

Lemma submitted_inputs_poll token k : submitted_inputs (poll_events token k) = [].
Proof. induction k as [|k IH]; [done|]. simpl. exact IH. Qed.

Lemma waitForSubmission_submits_nothing env token maxWaitTime w :
  submitted_inputs (trace (snd (waitForSubmission env token maxWaitTime w))) =
  submitted_inputs (trace w).
Proof.
  destruct (waitForSubmission_trace env token maxWaitTime w) as [k [-> | ->]];
    rewrite ?submitted_inputs_app, submitted_inputs_poll; simpl; by rewrite ?app_nil_r.
Qed.

Lemma case_pipeline_submits env code language tc w :
  truthy (getLanguageId language) = true →
  submitted_inputs (trace (snd (case_pipeline env code language tc w))) =
  submitted_inputs (trace w) ++ [input_data tc].
Proof.
  intros Hlang. rewrite case_pipeline_unfold. unfold bind.
  pose proof (submitCode_trace env code language (input_data tc) w) as Hs.
  rewrite Hlang in Hs.
  destruct (submitCode env code language (input_data tc) w) as [[e|token] w1]; simpl in Hs |- *.
  - by rewrite Hs, submitted_inputs_app.
  - pose proof (waitForSubmission_submits_nothing env token 30000 w1) as Hw.
    destruct (waitForSubmission env token 30000 w1) as [[e|result] w2]; simpl in Hw |- *;
      by rewrite Hw, Hs, submitted_inputs_app.
Qed.

Lemma batch_run_submits env code language testCases w entries w' :
  truthy (getLanguageId language) = true →
  batch_run env code language testCases w entries w' →
  submitted_inputs (trace w') = submitted_inputs (trace w) ++ map input_data testCases.
Proof.
  intros Hlang.
  induction 1 as [|tc rest w entry w1 entries w2 Hcase _ IH
                  |tc rest w e w1 entries w2 Hcase _ IH]; simpl.
  - by rewrite app_nil_r.
  - pose proof (case_pipeline_submits env code language tc w Hlang) as Hs.
    rewrite Hcase in Hs. simpl in Hs. by rewrite IH, Hs, <- app_assoc.
  - pose proof (case_pipeline_submits env code language tc w Hlang) as Hs.
    rewrite Hcase in Hs. simpl in Hs. by rewrite IH, Hs, <- app_assoc.
Qed.

(** X21.  With a language that resolves, [executeTestCases] sends exactly
    one submission per test case, in the order of the test cases, each with
    the input of its test case, whatever happens to the cases before. *)
Theorem executeTestCases_submission_order env code language testCases w :
  truthy (getLanguageId language) = true →
  submitted_inputs (trace (snd (executeTestCases env code language testCases w))) =
  submitted_inputs (trace w) ++ map input_data testCases.
Proof.
  intros Hlang.
  destruct (for_each_case_run env code language testCases [] w)
    as (entries & w' & Hloop & Hrun).
  unfold executeTestCases. rewrite try_catch_rethrow, Hloop. simpl.
  by eapply batch_run_submits.
Qed.

(** The witness of [executeTestCases_submission_order]: two cases, of which
    the first cannot be submitted. *)
Lemma executeTestCases_submission_order_witness :
  let env := {| post_reply := λ n _,
                  if Nat.eqb n 0 then mkReply 5 (inl {| message := "socket hang up";
                                                        response_status := None |})
                  else mkReply 5 (inr (JStr "token"));
                get_reply := λ _ _,
                  mkReply 10 (inr (engine_result 3 "Accepted" (JStr "3") JNull JNull));
                base64_to_utf8 := λ s, s;
                interpretTestCases := λ _ _ _, inr [] |} in
  let testCases := [ {| tc_id := 1; input_data := "1 2"; expected_output := "3";
                        is_sample := true |};
                     {| tc_id := 2; input_data := "2 1"; expected_output := "3";
                        is_sample := false |} ] in
  truthy (getLanguageId "python") = true ∧
  submitted_inputs (trace (snd (executeTestCases env "print(3)" "python" testCases
                                                 initial_world))) =
  submitted_inputs (trace initial_world) ++ ["1 2"; "2 1"].
Proof.
  intros env testCases. split; [reflexivity|].
  by apply (executeTestCases_submission_order env "print(3)" "python" testCases initial_world).
Defined.

(** ** executeTestCasesWithLLM: what each iteration submits *)

Lemma llm_case_trace env code language tc interpretation w :
  ∃ evs, trace (snd (llm_case env code language tc interpretation w)) = trace w ++ evs.
Proof.
  destruct interpretation as [interp|].
  - destruct (llm_case_submits env code language tc interp w) as (evs & H & _). eauto.
  - exists []. rewrite llm_case_run. simpl. by rewrite app_nil_r.
Qed.

Lemma llm_case_submitted env code language tc interp w :
  truthy (getLanguageId language) = true →
  submitted_inputs (trace (snd (llm_case env code language tc (Some interp) w))) =
  submitted_inputs (trace w) ++ [inputToUse tc interp].
Proof.
  intros Hlang. rewrite llm_case_run, llm_case_pipeline_unfold. unfold bind.
  pose proof (submitCode_trace env code language (inputToUse tc interp) w) as Hs.
  rewrite Hlang in Hs.
  destruct (submitCode env code language (inputToUse tc interp) w) as [[e|token] w1];
    simpl in Hs |- *.
  - by rewrite Hs, submitted_inputs_app.
  - pose proof (waitForSubmission_submits_nothing env token 30000 w1) as Hw.
    destruct (waitForSubmission env token 30000 w1) as [[e|result] w2]; simpl in Hw |- *.
    + by rewrite Hw, Hs, submitted_inputs_app.
    + destruct (classify tc result _ _); simpl; by rewrite Hw, Hs, submitted_inputs_app.
Qed.

Lemma submitted_inputs_new_events w w' inputs :
  (∃ evs, trace w' = trace w ++ evs) →
  submitted_inputs (trace w') = submitted_inputs (trace w) ++ inputs →
  submitted_inputs (new_events w w') = inputs.
Proof.
  intros [evs Htrace] H. rewrite (new_events_app _ _ _ Htrace).
  rewrite Htrace, submitted_inputs_app in H. by apply app_inv_head in H.
Qed.

(** What one iteration with an interpretation submits and records. *)
Lemma llm_step_input env code language tc interp wi entry wi' :
  llm_case env code language tc (Some interp) wi = (inr entry, wi') →
  (∀ s, EvPost s ∈ new_events wi wi' → stdin s = inputToUse tc interp) ∧
  (truthy (getLanguageId language) = true →
   submitted_inputs (new_events wi wi') = [inputToUse tc interp]) ∧
  (∀ entry' w1, llm_case_pipeline env code language tc (Some interp) wi = (inr entry', w1) →
     entry = entry' ∧ usedInput entry = Some (inputToUse tc interp)) ∧
  (∀ e w1, llm_case_pipeline env code language tc (Some interp) wi = (inl e, w1) →
     entry = caught tc e (Some (Some interp)) (Some (input_data tc))).
Proof.
  intros Hcase. split; [|split; [|split]].
  - destruct (llm_case_submits env code language tc interp wi) as (evs & Htrace & Hevs).
    rewrite Hcase in Htrace. simpl in Htrace. by rewrite (new_events_app _ _ _ Htrace).
  - intros Hlang. apply submitted_inputs_new_events.
    + pose proof (llm_case_trace env code language tc (Some interp) wi) as Ht.
      by rewrite Hcase in Ht.
    + pose proof (llm_case_submitted env code language tc interp wi Hlang) as Hs.
      by rewrite Hcase in Hs.
  - intros entry' w1 Hret. rewrite llm_case_run, Hret in Hcase. injection Hcase as <- _.
    split; [done|]. by apply llm_case_pipeline_usedInput in Hret as [? _].
  - intros e w1 Hthrow. rewrite llm_case_run, Hthrow in Hcase. by injection Hcase as <- _.
Qed.

(** What one iteration without an interpretation does: nothing but the
    entry of the [catch] block. *)
Lemma llm_step_missing env code language tc wi entry wi' :
  llm_case env code language tc None wi = (inr entry, wi') →
  wi' = wi ∧
  entry = caught tc (TypeError "Cannot read properties of undefined (reading 'formatted_input')")
                 (Some None) (Some (input_data tc)).
Proof. rewrite llm_case_run. simpl. by intros [= <- <-]. Qed.

Lemma new_events_same w : new_events w w = [].
Proof. unfold new_events. apply drop_all. Qed.

Lemma llm_run_trace env code language interpreted i testCases w steps w' :
  llm_run env code language interpreted i testCases w steps w' →
  trace w' = trace w ++ concat (map step_events steps).
Proof.
  induction 1 as [j w|j tc rest w entry w1 steps w2 Hcase _ IH]; simpl.
  - by rewrite app_nil_r.
  - destruct (llm_case_trace env code language tc (interpreted !! j) w) as [evs Hevs].
    rewrite Hcase in Hevs. simpl in Hevs.
    unfold step_events at 1. simpl. rewrite (new_events_app _ _ _ Hevs).
    by rewrite IH, Hevs, <- app_assoc.
Qed.

Lemma llm_run_step env code language interpreted i0 testCases w steps w' :
  llm_run env code language interpreted i0 testCases w steps w' →
  ∀ i tc wi entry wi',
    testCases !! i = Some tc → steps !! i = Some (wi, entry, wi') →
    llm_case env code language tc (interpreted !! (i0 + i)) wi = (inr entry, wi').
Proof.
  intros Hrun i tc wi entry wi' Hi Hstep.
  destruct (llm_run_lookup _ _ _ _ _ _ _ _ _ Hrun) as [_ Hlookup].
  destruct (Hlookup i tc Hi) as (wj & entry' & wj' & Hstep' & Hcase).
  rewrite Hstep in Hstep'. by injection Hstep' as <- <- <-.
Qed.

Lemma llm_run_planned env code language interpreted i testCases w steps w' :
  truthy (getLanguageId language) = true →
  llm_run env code language interpreted i testCases w steps w' →
  submitted_inputs (trace w') =
  submitted_inputs (trace w) ++ planned_inputs interpreted i testCases.
Proof.
  intros Hlang.
  induction 1 as [j w|j tc rest w entry w1 steps w2 Hcase _ IH]; simpl.
  - by rewrite app_nil_r.
  - rewrite IH. destruct (interpreted !! j) as [interp|].
    + pose proof (llm_case_submitted env code language tc interp w Hlang) as Hs.
      rewrite Hcase in Hs. simpl in Hs. by rewrite Hs, <- app_assoc.
    + apply llm_step_missing in Hcase as [-> _]. done.
Qed.

(** The run of the interpreted batch: one step per test case, chained from
    the world of the call to the world it leaves, the steps' entries being
    what is returned and the steps' events being what was logged. *)
Lemma executeTestCasesWithLLM_steps
    env code language testCases problemContext interpreted w :
  interpretTestCases env testCases language problemContext = inr interpreted →
  ∃ steps w',
    executeTestCasesWithLLM env code language testCases problemContext w =
      (inr (map step_entry steps), w') ∧
    length steps = length testCases ∧
    llm_run env code language interpreted 0 testCases w steps w' ∧
    trace w' = trace w ++ concat (map step_events steps).
Proof.
  intros Hinterp.
  destruct (executeTestCasesWithLLM_run env code language testCases problemContext
              interpreted w Hinterp) as (steps & w' & Hexec & Hrun).
  exists steps, w'. split; [done|].
  split; [by destruct (llm_run_lookup _ _ _ _ _ _ _ _ _ Hrun)|].
  split; [done|]. by eapply llm_run_trace.
Qed.

(** C4.  When the interpretation service has answered, the interpreted
    batch runs one step per test case, chained from the world of the call
    [w] to the world it leaves [w']: the entries of the steps are what is
    returned, and the events of the steps are all that is logged.  In the
    step of a test case whose interpretation has [success] false or no
    [formatted_input], every submission has the original [input_data] as
    stdin (and there is exactly one when the language resolves), and the
    entry records it as [usedInput].  When the pipeline of a case throws,
    whatever its interpretation, its entry is the ERROR entry with the
    message of the exception and [usedInput] the original [input_data]. *)
Theorem executeTestCasesWithLLM_fallback_input
    env code language testCases problemContext interpreted w :
  interpretTestCases env testCases language problemContext = inr interpreted →
  ∃ steps w',
    executeTestCasesWithLLM env code language testCases problemContext w =
      (inr (map step_entry steps), w') ∧
    length steps = length testCases ∧
    llm_run env code language interpreted 0 testCases w steps w' ∧
    trace w' = trace w ++ concat (map step_events steps) ∧
    (truthy (getLanguageId language) = true →
     submitted_inputs (trace w') =
     submitted_inputs (trace w) ++ planned_inputs interpreted 0 testCases) ∧
    ∀ i tc wi entry wi',
      testCases !! i = Some tc → steps !! i = Some (wi, entry, wi') →
      llm_case env code language tc (interpreted !! i) wi = (inr entry, wi') ∧
      (∀ interp, interpreted !! i = Some interp →
         success interp = false ∨ formatted_input interp = None →
         inputToUse tc interp = input_data tc ∧
         usedInput entry = Some (input_data tc) ∧
         (∀ s, EvPost s ∈ step_events (wi, entry, wi') → stdin s = input_data tc) ∧
         (truthy (getLanguageId language) = true →
          submitted_inputs (step_events (wi, entry, wi')) = [input_data tc])) ∧
      (∀ e w1, llm_case_pipeline env code language tc (interpreted !! i) wi = (inl e, w1) →
         verdict entry = ERROR ∧ error entry = JStr (message e) ∧
         usedInput entry = Some (input_data tc)).
Proof.
  intros Hinterp.
  destruct (executeTestCasesWithLLM_steps env code language testCases problemContext
              interpreted w Hinterp) as (steps & w' & Hexec & Hlen & Hrun & Htrace).
  exists steps, w'. repeat (split; [done|]).
  split; [intros Hlang; by eapply llm_run_planned|].
  intros i tc wi entry wi' Hi Hstep.
  pose proof (llm_run_step _ _ _ _ _ _ _ _ _ Hrun i tc wi entry wi' Hi Hstep) as Hcase.
  simpl in Hcase. split; [done|]. split.
  - intros interp Hint Hfall. rewrite Hint in Hcase.
    pose proof (inputToUse_fallback tc interp Hfall) as Hinput.
    destruct (llm_step_input _ _ _ _ _ _ _ _ Hcase) as (Hposts & Hone & Hret & Hthrow).
    rewrite Hinput in Hposts, Hone, Hret. unfold step_events. simpl.
    split; [done|]. split; [|by split].
    destruct (llm_case_pipeline env code language tc (Some interp) wi)
      as [[e|entry'] w1] eqn:E.
    + by rewrite (Hthrow e w1 eq_refl).
    + by destruct (Hret entry' w1 eq_refl).
  - intros e w1 Hthrow. rewrite llm_case_run, Hthrow in Hcase.
    by injection Hcase as <- _.
Qed.

(** The witness of [executeTestCasesWithLLM_fallback_input]: the service
    reports a failed interpretation together with an unusable rewrite. *)
Lemma executeTestCasesWithLLM_fallback_input_witness :
  let env := {| post_reply := λ _ _, mkReply 5 (inr (JStr "token"));
                get_reply := λ _ _,
                  mkReply 10 (inr {| status := Some {| status_id := 3; description := JStr "Accepted" |};
                                     stdout := JStr "Mw=="; stderr := JNull; compile_output := JNull;
                                     time := JStr "0.01"; memory := JNum 3000; other := ∅ |});
                base64_to_utf8 := λ s, if String.eqb s "Mw==" then "3" else "";
                interpretTestCases := λ tcs _ _,
                  inr (map (λ _, {| success := false; formatted_input := Some "???" |}) tcs) |} in
  let testCases := [ {| tc_id := 1; input_data := "1 2"; expected_output := "3";
                        is_sample := true |} ] in
  interpretTestCases env testCases "python" "add two numbers" =
    inr [ {| success := false; formatted_input := Some "???" |} ] ∧
  ∃ steps w',
    executeTestCasesWithLLM env "print(3)" "python" testCases "add two numbers" initial_world =
      (inr (map step_entry steps), w') ∧
    length steps = length testCases ∧
    trace w' = trace initial_world ++ concat (map step_events steps).
Proof.
  intros env testCases. split; [reflexivity|].
  destruct (executeTestCasesWithLLM_fallback_input env "print(3)" "python" testCases
              "add two numbers" [ {| success := false; formatted_input := Some "???" |} ]
              initial_world eq_refl) as (steps & w' & Hrun & Hlen & _ & Htrace & _).
  exists steps, w'. split; [exact Hrun|]. split; [exact Hlen|exact Htrace].
Defined.

(** X12.  In the run of the interpreted batch, the step of a test case for
    which the interpretation service returned no entry (its list is shorter
    than the batch) logs nothing, so the case is not submitted, and enters
    the ERROR entry of the failed property access with the original input
    as [usedInput]; with an empty list of interpretations the whole batch
    sends nothing. *)
Theorem executeTestCasesWithLLM_missing_interpretation
    env code language testCases problemContext interpreted w :
  interpretTestCases env testCases language problemContext = inr interpreted →
  ∃ steps w',
    executeTestCasesWithLLM env code language testCases problemContext w =
      (inr (map step_entry steps), w') ∧
    length steps = length testCases ∧
    llm_run env code language interpreted 0 testCases w steps w' ∧
    trace w' = trace w ++ concat (map step_events steps) ∧
    (∀ i tc wi entry wi',
       testCases !! i = Some tc → steps !! i = Some (wi, entry, wi') →
       interpreted !! i = None →
       wi' = wi ∧ step_events (wi, entry, wi') = [] ∧
       entry = caught tc (TypeError "Cannot read properties of undefined (reading 'formatted_input')")
                      (Some None) (Some (input_data tc))) ∧
    (interpreted = [] → w' = w).
Proof.
  intros Hinterp.
  destruct (executeTestCasesWithLLM_steps env code language testCases problemContext
              interpreted w Hinterp) as (steps & w' & Hexec & Hlen & Hrun & Htrace).
  exists steps, w'. repeat (split; [done|]). split.
  - intros i tc wi entry wi' Hi Hstep Hnone.
    pose proof (llm_run_step _ _ _ _ _ _ _ _ _ Hrun i tc wi entry wi' Hi Hstep) as Hcase.
    simpl in Hcase. rewrite Hnone in Hcase.
    apply llm_step_missing in Hcase as [-> ->].
    split; [done|]. split; [apply new_events_same|done].
  - intros ->. by eapply llm_run_no_interpretation.
Qed.

(** The witness of [executeTestCasesWithLLM_missing_interpretation]: the
    service answers with one interpretation for two test cases. *)
Lemma executeTestCasesWithLLM_missing_interpretation_witness :
  let interp := {| success := true; formatted_input := Some "1 2" |} in
  let env := {| post_reply := λ _ _, mkReply 5 (inr (JStr "token"));
                get_reply := λ _ _,
                  mkReply 10 (inr (engine_result 3 "Accepted" (JStr "3") JNull JNull));
                base64_to_utf8 := λ s, s;
                interpretTestCases := λ _ _ _, inr [interp] |} in
  let first := {| tc_id := 1; input_data := "[1,2]"; expected_output := "3"; is_sample := true |} in
  let second := {| tc_id := 2; input_data := "[2,3]"; expected_output := "5"; is_sample := false |} in
  interpretTestCases env [first; second] "python" "" = inr [interp] ∧
  ∃ steps w',
    executeTestCasesWithLLM env "print(3)" "python" [first; second] "" initial_world =
      (inr (map step_entry steps), w') ∧
    length steps = 2 ∧
    trace w' = trace initial_world ++ concat (map step_events steps) ∧
    ∀ wi entry wi', steps !! 1 = Some (wi, entry, wi') →
      wi' = wi ∧ step_events (wi, entry, wi') = [] ∧ verdict entry = ERROR ∧
      usedInput entry = Some "[2,3]".
Proof.
  intros interp env first second. split; [reflexivity|].
  destruct (executeTestCasesWithLLM_missing_interpretation env "print(3)" "python"
              [first; second] "" [interp] initial_world eq_refl)
    as (steps & w' & Hrun & Hlen & _ & Htrace & Hstep & _).
  exists steps, w'. split; [exact Hrun|]. split; [exact Hlen|]. split; [exact Htrace|].
  intros wi entry wi' Hsecond.
  destruct (Hstep 1 second wi entry wi' eq_refl Hsecond eq_refl) as (Hw & Hevents & Hentry).
  split; [exact Hw|]. split; [exact Hevents|]. rewrite Hentry. split; reflexivity.
Defined.

(** With one interpretation for two test cases the first case alone is
    submitted. *)
Example missing_interpretation_is_not_submitted :
  let interp := {| success := true; formatted_input := Some "1 2" |} in
  let env := {| post_reply := λ _ _, mkReply 5 (inr (JStr "token"));
                get_reply := λ _ _,
                  mkReply 10 (inr (engine_result 3 "Accepted" (JStr "3") JNull JNull));
                base64_to_utf8 := λ s, s;
                interpretTestCases := λ _ _ _, inr [interp] |} in
  let first := {| tc_id := 1; input_data := "[1,2]"; expected_output := "3"; is_sample := true |} in
  let second := {| tc_id := 2; input_data := "[2,3]"; expected_output := "5"; is_sample := false |} in
  let run := executeTestCasesWithLLM env "print(3)" "python" [first; second] "" initial_world in
  match fst run with
  | inr results => map verdict results = [PASSED; ERROR] ∧
                   map usedInput results = [Some "1 2"; Some "[2,3]"]
  | inl _ => False
  end ∧
  submitted_inputs (trace (snd run)) = ["1 2"] ∧ posts (snd run) = 1.
Proof. by vm_compute. Qed.

(** X13.  In the run of the interpreted batch, the step of a test case
    whose interpretation has [success] true and a non-empty
    [formatted_input] submits the rewritten input, exactly once when the
    language resolves, and its entry records it as [usedInput] when the
    pipeline returns.  When the pipeline throws, also after the submission
    was sent, the entry records the original [input_data] as
    [usedInput]. *)
Theorem executeTestCasesWithLLM_interpreted_input
    env code language testCases problemContext interpreted w :
  interpretTestCases env testCases language problemContext = inr interpreted →
  ∃ steps w',
    executeTestCasesWithLLM env code language testCases problemContext w =
      (inr (map step_entry steps), w') ∧
    length steps = length testCases ∧
    llm_run env code language interpreted 0 testCases w steps w' ∧
    trace w' = trace w ++ concat (map step_events steps) ∧
    ∀ i tc interp formatted wi entry wi',
      testCases !! i = Some tc → steps !! i = Some (wi, entry, wi') →
      interpreted !! i = Some interp →
      success interp = true → formatted_input interp = Some formatted → formatted ≠ "" →
      (∀ s, EvPost s ∈ step_events (wi, entry, wi') → stdin s = formatted) ∧
      (truthy (getLanguageId language) = true →
       submitted_inputs (step_events (wi, entry, wi')) = [formatted]) ∧
      (∀ entry' w1, llm_case_pipeline env code language tc (Some interp) wi = (inr entry', w1) →
         entry = entry' ∧ usedInput entry = Some formatted) ∧
      (∀ e w1, llm_case_pipeline env code language tc (Some interp) wi = (inl e, w1) →
         verdict entry = ERROR ∧ error entry = JStr (message e) ∧
         usedInput entry = Some (input_data tc)).
Proof.
  intros Hinterp.
  destruct (executeTestCasesWithLLM_steps env code language testCases problemContext
              interpreted w Hinterp) as (steps & w' & Hexec & Hlen & Hrun & Htrace).
  exists steps, w'. repeat (split; [done|]).
  intros i tc interp formatted wi entry wi' Hi Hstep Hint Hok Hfmt Hne.
  pose proof (llm_run_step _ _ _ _ _ _ _ _ _ Hrun i tc wi entry wi' Hi Hstep) as Hcase.
  simpl in Hcase. rewrite Hint in Hcase.
  assert (inputToUse tc interp = formatted) as Hinput.
  { unfold inputToUse. rewrite Hfmt, Hok. simpl.
    by destruct (String.eqb_spec formatted ""). }
  destruct (llm_step_input _ _ _ _ _ _ _ _ Hcase) as (Hposts & Hone & Hret & Hthrow).
  rewrite Hinput in Hposts, Hone, Hret. unfold step_events. simpl.
  split; [done|]. split; [done|]. split; [done|].
  intros e w1 He. by rewrite (Hthrow e w1 He).
Qed.

(** The witness of [executeTestCasesWithLLM_interpreted_input]: the service
    rewrites a list literal into two numbers. *)
Lemma executeTestCasesWithLLM_interpreted_input_witness :
  let interp := {| success := true; formatted_input := Some "1 2" |} in
  let env := {| post_reply := λ _ _, mkReply 5 (inr (JStr "token"));
                get_reply := λ _ _,
                  mkReply 10 (inr (engine_result 3 "Accepted" (JStr "3") JNull JNull));
                base64_to_utf8 := λ s, s;
                interpretTestCases := λ _ _ _, inr [interp] |} in
  let tc := {| tc_id := 1; input_data := "[1,2]"; expected_output := "3"; is_sample := true |} in
  interpretTestCases env [tc] "python" "" = inr [interp] ∧
  ∃ steps w',
    executeTestCasesWithLLM env "print(3)" "python" [tc] "" initial_world =
      (inr (map step_entry steps), w') ∧
    length steps = 1.
Proof.
  intros interp env tc. split; [reflexivity|].
  destruct (executeTestCasesWithLLM_interpreted_input env "print(3)" "python" [tc] "" [interp]
              initial_world eq_refl) as (steps & w' & Hrun & Hlen & _).
  exists steps, w'. split; [exact Hrun|exact Hlen].
Defined.

(** A rewritten input is the one submitted and recorded. *)
Example interpreted_input_is_submitted :
  let interp := {| success := true; formatted_input := Some "1 2" |} in
  let env := {| post_reply := λ _ _, mkReply 5 (inr (JStr "token"));
                get_reply := λ _ _,
                  mkReply 10 (inr (engine_result 3 "Accepted" (JStr "3") JNull JNull));
                base64_to_utf8 := λ s, s;
                interpretTestCases := λ _ _ _, inr [interp] |} in
  let tc := {| tc_id := 1; input_data := "[1,2]"; expected_output := "3"; is_sample := true |} in
  let run := executeTestCasesWithLLM env "print(3)" "python" [tc] "" initial_world in
  match fst run with
  | inr results => map usedInput results = [Some "1 2"]
  | inl _ => False
  end ∧
  submitted_inputs (trace (snd run)) = ["1 2"].
Proof. by vm_compute. Qed.

(** X14.  In the run of the interpreted batch, the step of a test case
    whose interpretation has the empty text as [formatted_input] submits
    the original [input_data], exactly once when the language resolves,
    and its entry records it as [usedInput], also when the interpretation
    reports success. *)
Theorem executeTestCasesWithLLM_empty_interpretation
    env code language testCases problemContext interpreted w :
  interpretTestCases env testCases language problemContext = inr interpreted →
  ∃ steps w',
    executeTestCasesWithLLM env code language testCases problemContext w =
      (inr (map step_entry steps), w') ∧
    length steps = length testCases ∧
    llm_run env code language interpreted 0 testCases w steps w' ∧
    trace w' = trace w ++ concat (map step_events steps) ∧
    ∀ i tc interp wi entry wi',
      testCases !! i = Some tc → steps !! i = Some (wi, entry, wi') →
      interpreted !! i = Some interp → formatted_input interp = Some "" →
      (∀ s, EvPost s ∈ step_events (wi, entry, wi') → stdin s = input_data tc) ∧
      (truthy (getLanguageId language) = true →
       submitted_inputs (step_events (wi, entry, wi')) = [input_data tc]) ∧
      usedInput entry = Some (input_data tc).
Proof.
  intros Hinterp.
  destruct (executeTestCasesWithLLM_steps env code language testCases problemContext
              interpreted w Hinterp) as (steps & w' & Hexec & Hlen & Hrun & Htrace).
  exists steps, w'. repeat (split; [done|]).
  intros i tc interp wi entry wi' Hi Hstep Hint Hfmt.
  pose proof (llm_run_step _ _ _ _ _ _ _ _ _ Hrun i tc wi entry wi' Hi Hstep) as Hcase.
  simpl in Hcase. rewrite Hint in Hcase.
  assert (inputToUse tc interp = input_data tc) as Hinput.
  { unfold inputToUse. rewrite Hfmt. simpl. by rewrite andb_false_r. }
  destruct (llm_step_input _ _ _ _ _ _ _ _ Hcase) as (Hposts & Hone & Hret & Hthrow).
  rewrite Hinput in Hposts, Hone, Hret. unfold step_events. simpl.
  split; [done|]. split; [done|].
  destruct (llm_case_pipeline env code language tc (Some interp) wi) as [[e|entry'] w1] eqn:E.
  - by rewrite (Hthrow e w1 eq_refl).
  - by destruct (Hret entry' w1 eq_refl).
Qed.

(** The witness of [executeTestCasesWithLLM_empty_interpretation]: the
    service reports success with an empty rewrite. *)
Lemma executeTestCasesWithLLM_empty_interpretation_witness :
  let interp := {| success := true; formatted_input := Some "" |} in
  let env := {| post_reply := λ _ _, mkReply 5 (inr (JStr "token"));
                get_reply := λ _ _,
                  mkReply 10 (inr (engine_result 3 "Accepted" (JStr "3") JNull JNull));
                base64_to_utf8 := λ s, s;
                interpretTestCases := λ _ _ _, inr [interp] |} in
  let tc := {| tc_id := 1; input_data := "[1,2]"; expected_output := "3"; is_sample := true |} in
  interpretTestCases env [tc] "python" "" = inr [interp] ∧
  ∃ steps w',
    executeTestCasesWithLLM env "print(3)" "python" [tc] "" initial_world =
      (inr (map step_entry steps), w') ∧
    length steps = 1.
Proof.
  intros interp env tc. split; [reflexivity|].
  destruct (executeTestCasesWithLLM_empty_interpretation env "print(3)" "python" [tc] ""
              [interp] initial_world eq_refl) as (steps & w' & Hrun & Hlen & _).
  exists steps, w'. split; [exact Hrun|exact Hlen].
Defined.
